(** * curated-transformers: encoders, decoders and the byte-BPE piece encoder

    A shallow embedding of
      - [curated_transformers/models/albert/encoder.py]     (module [Albert]),
      - [curated_transformers/models/llama/decoder.py]      (module [Llama]),
      - [curated_transformers/tokenization/bbpe_encoder.py] (module [BBPE]),
    and a model of the decoder stack with its key/value cache (module
    [Transformer]), followed by the properties the specification states
    about them.

    Python integers are [Z]; [%] and [//] are the floored operations of [Z]
    with the [ZeroDivisionError] of Python written out.  Code that raises
    lives in a small state-and-exception monad [Py]: the state is whatever
    the function at hand can observe of the outside world (the objects
    built so far, the calls made to a collaborator). *)

From Stdlib Require Import ZArith.
From stdpp Require Import base tactics option list strings pretty gmap.

Open Scope Z_scope.

(** ** Python runtime *)

Module Python.

(** The exceptions the embedded code can raise. *)
Inductive exn : Type :=
| ValueError (msg : string)
| ZeroDivisionError
| IndexError.

(** A computation over a world of type [W]: it either raises or returns,
    and leaves a world behind in both cases. *)
Definition Py (W A : Type) : Type := W → (exn + A) * W.

Definition ret {W A} (a : A) : Py W A := λ w, (inr a, w).

Definition bind {W A B} (m : Py W A) (k : A → Py W B) : Py W B :=
  λ w, match m w with
       | (inl e, w') => (inl e, w')
       | (inr a, w') => k a w'
       end.

Definition raise {W A} (e : exn) : Py W A := λ w, (inl e, w).

(** Lift a result that cannot touch the world. *)
Definition lift {W A} (r : exn + A) : Py W A := λ w, (r, w).

#[global] Instance Py_ret {W} : MRet (Py W) := @ret W.
#[global] Instance Py_bind {W} : MBind (Py W) := λ A B k m, bind m k.

(** [a % b] *)
Definition py_mod (a b : Z) : exn + Z :=
  if decide (b = 0) then inl ZeroDivisionError else inr (a `mod` b).

(** [a // b] *)
Definition py_floordiv (a b : Z) : exn + Z :=
  if decide (b = 0) then inl ZeroDivisionError else inr (a `div` b).

(** [range(n)]: empty when [n <= 0]. *)
Definition range (n : Z) : list Z := Z.of_nat <$> seq 0 (Z.to_nat n).

(** [for x in xs: acc = body(acc, x)], where the body may raise. *)
Fixpoint for_in {W A B} (xs : list A) (body : B → A → Py W B) (acc : B)
  : Py W B :=
  match xs with
  | [] => ret acc
  | x :: xs' => bind (body acc x) (for_in xs' body)
  end.

(** [enumerate(xs)] *)
Definition enumerate {A} (xs : list A) : list (Z * A) :=
  zip (range (Z.of_nat (length xs))) xs.

(** [xs[i]] for an index that is not negative. *)
Definition getitem {A} (xs : list A) (i : Z) : exn + A :=
  if decide (i < 0) then inl IndexError
  else match xs !! Z.to_nat i with
       | Some x => inr x
       | None => inl IndexError
       end.

End Python.

Import Python.

(** ** torch.nn modules as objects *)

Module Torch.

(** A module that is built gets an identity; building it and calling it are
    the two things the outside can observe. *)
Inductive event : Type :=
| Built (cls : string) (oid : nat)
| Called (oid : nat).

Record world : Type := World { next_id : nat; events : list event }.

(** Allocate the identity of a new instance of class [cls]. *)
Definition fresh (cls : string) : Py world nat :=
  λ w, (inr (next_id w),
        World (S (next_id w)) (events w ++ [Built cls (next_id w)])).

(** Record that the module [oid] is called. *)
Definition called (oid : nat) : Py world unit :=
  λ w, (inr (), World (next_id w) (events w ++ [Called oid])).

(** The identities of the instances of [cls] built, in order. *)
Definition built_of (cls : string) (es : list event) : list nat :=
  omap (λ e, match e with
             | Built c oid => if decide (c = cls) then Some oid else None
             | Called _ => None
             end) es.

(** The identities of the modules called, in order. *)
Definition calls_of (es : list event) : list nat :=
  omap (λ e, match e with Called oid => Some oid | Built _ _ => None end) es.

End Torch.

Import Torch.

(** ** ALBERT encoder ([models/albert/encoder.py]) *)

Module Albert.

(** The types this file only passes around: the parts of the configuration
    it does not read, hidden states, and the parameters of its submodules. *)
Class Opaque : Type := {
  EmbeddingConfig : Type;
  AttentionConfig : Type;
  LayerRest : Type;
  Hidden : Type;
  EmbParams : Type;
  GroupParams : Type }.

Record AlbertLayerConfig `{Opaque} : Type := {
  num_hidden_layers : Z;
  num_hidden_groups : Z;
  layer_rest : LayerRest }.

Record AlbertConfig `{Opaque} : Type := {
  padding_id : Z;
  model_max_length : Z;
  embedding : EmbeddingConfig;
  attention : AttentionConfig;
  layer : AlbertLayerConfig }.

Record AttentionMask : Type := mkAttentionMask { bool_mask : list (list bool) }.

Record BertEmbeddings `{Opaque} : Type :=
  { emb_oid : nat; emb_params : EmbParams }.

Record AlbertLayerGroup `{Opaque} : Type :=
  { grp_oid : nat; grp_params : GroupParams }.

(** [BertEmbeddings] and [AlbertLayerGroup] are defined in files outside this
    embedding: the parameters a new instance starts with (they may differ
    from one instance to the next) and what calling an instance computes are
    taken as given. *)
Class Submodules `{Opaque} : Type := {
  embeddings_params : EmbeddingConfig → AlbertLayerConfig → nat → EmbParams;
  group_params : AlbertLayerConfig → AttentionConfig → nat → GroupParams;
  embeddings_call :
    EmbParams → list (list Z) → option (list (list Z)) → option (list (list Z))
    → Hidden;
  group_call : GroupParams → Hidden → AttentionMask → Hidden }.

(** [BertEmbeddings(embedding_config, layer_config)] *)
Definition BertEmbeddings_new `{Submodules}
    (ec : EmbeddingConfig) (lc : AlbertLayerConfig) : Py world BertEmbeddings :=
  oid ← fresh "BertEmbeddings";
  mret {| emb_oid := oid; emb_params := embeddings_params ec lc oid |}.

(** [AlbertLayerGroup(layer_config, attention_config)] *)
Definition AlbertLayerGroup_new `{Submodules}
    (lc : AlbertLayerConfig) (ac : AttentionConfig) : Py world AlbertLayerGroup :=
  oid ← fresh "AlbertLayerGroup";
  mret {| grp_oid := oid; grp_params := group_params lc ac oid |}.

Record AlbertEncoder `{Opaque} : Type := {
  self_padding_id : Z;
  self_max_seq_len : Z;
  self_num_hidden_layers : Z;
  self_embeddings : BertEmbeddings;
  self_groups : list AlbertLayerGroup }.

Definition divisable_msg (n_layers n_groups : Z) : string :=
  ("The number of hidden layers (" +:+ pretty n_layers +:+ ") in the "
   +:+ "ALBERT encoder must be divisable by number of hidden groups "
   +:+ "(" +:+ pretty n_groups +:+ ")")%string.

(** [AlbertEncoder.__init__] *)
Definition AlbertEncoder_init `{Submodules} (config : AlbertConfig)
  : Py world AlbertEncoder :=
  let padding_id := padding_id config in
  let max_seq_len := model_max_length config in
  let num_hidden_layers := num_hidden_layers (layer config) in
  let num_hidden_groups := num_hidden_groups (layer config) in
  r ← lift (py_mod num_hidden_layers num_hidden_groups);
  if decide (r ≠ 0) then
    raise (ValueError (divisable_msg num_hidden_layers num_hidden_groups))
  else
    embeddings ← BertEmbeddings_new (embedding config) (layer config);
    groups ← for_in (range num_hidden_groups)
               (λ acc _, g ← AlbertLayerGroup_new (layer config) (attention config);
                         mret (acc ++ [g]))
               [];
    mret {| self_padding_id := padding_id;
            self_max_seq_len := max_seq_len;
            self_num_hidden_layers := num_hidden_layers;
            self_embeddings := embeddings;
            self_groups := groups |}.

(** [AlbertEncoder._create_attention_mask]: [x.ne(self.padding_id)] *)
Definition _create_attention_mask `{Opaque} (self : AlbertEncoder) (x : list (list Z))
  : AttentionMask :=
  mkAttentionMask
    ((λ row : list Z, (λ t, bool_decide (t ≠ self_padding_id self)) <$> row) <$> x).

Record ModelOutput `{Opaque} : Type := {
  embedding_output : Hidden;
  layer_hidden_states : list Hidden }.

(** [group(layer_output, attention_mask=attention_mask)] *)
Definition call_group `{Submodules} (group : AlbertLayerGroup) (x : Hidden)
    (m : AttentionMask) : Py world Hidden :=
  _ ← called (grp_oid group);
  mret (group_call (grp_params group) x m).

(** [self.embeddings(input_ids, token_type_ids, None)] *)
Definition call_embeddings `{Submodules} (e : BertEmbeddings)
    (input_ids : list (list Z)) (token_type_ids : option (list (list Z)))
  : Py world Hidden :=
  _ ← called (emb_oid e);
  mret (embeddings_call (emb_params e) input_ids token_type_ids None).

(** The two nested loops of [forward]. *)
Definition forward_layers `{Submodules} (groups : list AlbertLayerGroup)
    (layers_per_group : Z) (attention_mask : AttentionMask)
    (start : Hidden * list Hidden) : Py world (Hidden * list Hidden) :=
  for_in groups
    (λ st group,
       for_in (range layers_per_group)
         (λ '(layer_output, layer_outputs) _,
            layer_output ← call_group group layer_output attention_mask;
            mret (layer_output, layer_outputs ++ [layer_output]))
         st)
    start.

(** [AlbertEncoder.forward] *)
Definition forward `{Submodules} (self : AlbertEncoder) (input_ids : list (list Z))
    (attention_mask : option AttentionMask)
    (token_type_ids : option (list (list Z))) : Py world ModelOutput :=
  let attention_mask :=
    match attention_mask with
    | None => _create_attention_mask self input_ids
    | Some m => m
    end in
  embeddings ← call_embeddings (self_embeddings self) input_ids token_type_ids;
  let layer_output := embeddings in
  layers_per_group ←
    lift (py_floordiv (self_num_hidden_layers self)
                      (Z.of_nat (length (self_groups self))));
  let layer_outputs := [] in
  st ← forward_layers (self_groups self) layers_per_group attention_mask
         (layer_output, layer_outputs);
  mret {| embedding_output := embeddings;
          layer_hidden_states := st.2 |}.

(** The input of the layer at position [p]: the embeddings at position 0,
    the output of the layer before it elsewhere. *)
Definition layer_input `{Opaque} (out : ModelOutput) (p : nat) : option Hidden :=
  match p with
  | O => Some (embedding_output out)
  | S p' => layer_hidden_states out !! p'
  end.

(** The module the specification has at each layer position when every
    group stands for [n] layers: group 0 at the first [n] positions, group
    1 at the next [n], and so on. *)
Definition position_groups `{Opaque} (groups : list AlbertLayerGroup) (n : nat)
  : list AlbertLayerGroup :=
  g ← groups; replicate n g.

(** The outputs of a chain of modules, each consuming the output of the one
    before it. *)
Fixpoint chain `{Submodules} (mods : list AlbertLayerGroup) (m : AttentionMask)
    (x : Hidden) : list Hidden :=
  match mods with
  | [] => []
  | g :: mods' =>
      let y := group_call (grp_params g) x m in
      y :: chain mods' m y
  end.

(** A small instance to run the encoder on: hidden states are numbers, a
    layer group adds its parameter to its input, and a new group gets its
    identity as parameter. *)
Definition toy_opaque : Opaque := {|
  EmbeddingConfig := unit; AttentionConfig := unit; LayerRest := unit;
  Hidden := Z; EmbParams := unit; GroupParams := Z |}.

Definition toy_submodules : @Submodules toy_opaque :=
  @Build_Submodules toy_opaque
    (λ _ _ _, tt)
    (λ _ _ oid, Z.of_nat oid)
    (λ _ ids _ _, foldr Z.add 0 (concat ids))
    (λ p x _, 2 * x + p).

Definition toy_config (n_layers n_groups : Z) : @AlbertConfig toy_opaque :=
  @Build_AlbertConfig toy_opaque 0 512 tt tt
    (@Build_AlbertLayerConfig toy_opaque n_layers n_groups tt).

Definition toy_encoder : @AlbertEncoder toy_opaque :=
  @Build_AlbertEncoder toy_opaque 0 512 4
    (@Build_BertEmbeddings toy_opaque 0%nat tt)
    [ @Build_AlbertLayerGroup toy_opaque 1%nat 1;
      @Build_AlbertLayerGroup toy_opaque 2%nat 2 ].

End Albert.

(** ** Llama decoder ([models/llama/decoder.py]) *)

Module Llama.

(** What the constructor takes from elsewhere: floats, devices and the
    activation of the configuration, the [QkvMode] enumeration, and the
    [AttentionHeads] descriptor of [layers/attention.py] with its
    [key_value_broadcast] constructor. *)
Class Opaque : Type := {
  Float : Type;
  Device : Type;
  Activation : Type;
  QkvMode : Type;
  SEPARATE : QkvMode;
  AttentionHeads : Type;
  key_value_broadcast : Z → Z → AttentionHeads }.

Record RotaryEmbeddingConfig `{Opaque} : Type := {
  rotary_fraction : Float;
  rotary_base : Z }.

Record LlamaEmbeddingConfig `{Opaque} : Type := {
  emb_dropout_prob : Float;
  embedding_width : Z;
  n_pieces : Z }.

Record LlamaFeedForwardConfig `{Opaque} : Type := {
  hidden_width : Z;
  activation : Activation;
  intermediate_width : Z;
  ff_use_bias : bool;
  use_gate : bool }.

Record LlamaAttentionConfig `{Opaque} : Type := {
  n_query_heads : Z;
  n_key_value_heads : Z;
  rotary_embeddings : option RotaryEmbeddingConfig;
  attn_dropout_prob : Float;
  attn_use_bias : bool;
  use_parallel_attention : bool }.

Record LlamaLayerConfig `{Opaque} : Type := {
  feedforward : LlamaFeedForwardConfig;
  attention : LlamaAttentionConfig;
  layer_norm_eps : Float;
  layer_dropout_prob : Float;
  n_hidden_layers : Z }.

Record LlamaConfig `{Opaque} : Type := {
  embedding : LlamaEmbeddingConfig;
  layer : LlamaLayerConfig }.

(** An object: its identity and the arguments it was built from. *)
Record obj (A : Type) : Type := Obj { oid : nat; args : A }.
Arguments Obj {A} _ _.
Arguments oid {A} _.
Arguments args {A} _.

(** [cls(args)] for a class defined elsewhere: a new object. *)
Definition new {A} (cls : string) (a : A) : Py world (obj A) :=
  i ← fresh cls;
  mret (Obj i a).

Record TransformerEmbeddingsArgs `{Opaque} : Type := {
  te_dropouts : obj (obj Float);
  te_embedding_width : Z;
  te_hidden_width : Z;
  te_layer_norms : obj unit;
  te_n_pieces : Z;
  te_n_positions : option Z;
  te_n_types : option Z;
  te_device : option Device }.

Record QueryKeyRotaryEmbeddingsArgs `{Opaque} : Type := {
  qk_fraction : Float;
  qk_base : Z;
  qk_head_width : Z }.

Record SelfAttentionArgs `{Opaque} : Type := {
  sa_attention_heads : AttentionHeads;
  sa_dropout_prob : Float;
  sa_hidden_width : Z;
  sa_qkv_mode : QkvMode;
  sa_rotary_embeds : obj QueryKeyRotaryEmbeddingsArgs;
  sa_use_bias : bool;
  sa_device : option Device }.

Record PointwiseFeedForwardArgs `{Opaque} : Type := {
  pf_activation : obj Activation;
  pf_hidden_width : Z;
  pf_intermediate_width : Z;
  pf_use_bias : bool;
  pf_use_gate : bool;
  pf_device : option Device }.

Record RMSNormArgs `{Opaque} : Type := {
  rn_width : Z;
  rn_eps : Float;
  rn_device : option Device }.

Record TransformerLayerNormsArgs `{Opaque} : Type := {
  attn_input_layer_norm : obj RMSNormArgs;
  ffn_input_layer_norm : obj RMSNormArgs }.

Record DecoderLayerArgs `{Opaque} : Type := {
  dl_attention_layer : obj SelfAttentionArgs;
  dl_feed_forward_layer : obj PointwiseFeedForwardArgs;
  dl_dropouts : obj Float;
  dl_layer_norms : obj TransformerLayerNormsArgs;
  dl_use_parallel_attention : bool }.

Record LlamaDecoder `{Opaque} : Type := {
  self_embeddings : obj TransformerEmbeddingsArgs;
  self_layers : list (obj DecoderLayerArgs);
  self_output_layer_norm : obj RMSNormArgs }.

Definition no_rotary_msg : string :=
  "Llama attention config does not contain rotary embedding parameters".

(** [layer_norm = partial(RMSNorm, hidden_width, eps=..., device=device)],
    called. *)
Definition layer_norm `{Opaque} (hidden_width : Z) (eps : Float)
    (device : option Device) : Py world (obj RMSNormArgs) :=
  new "RMSNorm" {| rn_width := hidden_width; rn_eps := eps; rn_device := device |}.

(** One [DecoderLayer(...)] of the list comprehension; the arguments are
    evaluated in the order they are written. *)
Definition DecoderLayer_new `{Opaque} (config : LlamaConfig)
    (rotary : RotaryEmbeddingConfig) (attention_heads : AttentionHeads)
    (device : option Device) : Py world (obj DecoderLayerArgs) :=
  let hidden_width := hidden_width (feedforward (layer config)) in
  let n_query_heads := n_query_heads (attention (layer config)) in
  head_width ← lift (py_floordiv hidden_width n_query_heads);
  rotary_embeds ← new "QueryKeyRotaryEmbeddings"
    {| qk_fraction := rotary_fraction rotary;
       qk_base := rotary_base rotary;
       qk_head_width := head_width |};
  attention_layer ← new "SelfAttention"
    {| sa_attention_heads := attention_heads;
       sa_dropout_prob := attn_dropout_prob (attention (layer config));
       sa_hidden_width := hidden_width;
       sa_qkv_mode := SEPARATE;
       sa_rotary_embeds := rotary_embeds;
       sa_use_bias := attn_use_bias (attention (layer config));
       sa_device := device |};
  activation ← new "Activation.module" (activation (feedforward (layer config)));
  feed_forward_layer ← new "PointwiseFeedForward"
    {| pf_activation := activation;
       pf_hidden_width := hidden_width;
       pf_intermediate_width := intermediate_width (feedforward (layer config));
       pf_use_bias := ff_use_bias (feedforward (layer config));
       pf_use_gate := use_gate (feedforward (layer config));
       pf_device := device |};
  dropouts ← new "TransformerDropouts" (layer_dropout_prob (layer config));
  norm1 ← layer_norm hidden_width (layer_norm_eps (layer config)) device;
  norm2 ← layer_norm hidden_width (layer_norm_eps (layer config)) device;
  layer_norms ← new "TransformerLayerNorms"
    {| attn_input_layer_norm := norm1; ffn_input_layer_norm := norm2 |};
  new "DecoderLayer"
    {| dl_attention_layer := attention_layer;
       dl_feed_forward_layer := feed_forward_layer;
       dl_dropouts := dropouts;
       dl_layer_norms := layer_norms;
       dl_use_parallel_attention := use_parallel_attention (attention (layer config)) |}.

(** The classes of the objects one [DecoderLayer(...)] builds, in order. *)
Definition layer_classes : list string :=
  [ "QueryKeyRotaryEmbeddings"; "SelfAttention"; "Activation.module";
    "PointwiseFeedForward"; "TransformerDropouts"; "RMSNorm"; "RMSNorm";
    "TransformerLayerNorms"; "DecoderLayer" ].

(** [LlamaDecoder.__init__] *)
Definition LlamaDecoder_init `{Opaque} (config : LlamaConfig)
    (device : option Device) : Py world LlamaDecoder :=
  embed_output_dropout ← new "Dropout" (emb_dropout_prob (embedding config));
  dropouts ← new "EmbeddingDropouts" embed_output_dropout;
  layer_norms ← new "EmbeddingLayerNorms" tt;
  embeddings ← new "TransformerEmbeddings"
    {| te_dropouts := dropouts;
       te_embedding_width := embedding_width (embedding config);
       te_hidden_width := hidden_width (feedforward (layer config));
       te_layer_norms := layer_norms;
       te_n_pieces := n_pieces (embedding config);
       te_n_positions := None;
       te_n_types := None;
       te_device := device |};
  let hidden_width := hidden_width (feedforward (layer config)) in
  let n_query_heads := n_query_heads (attention (layer config)) in
  let attention_heads :=
    key_value_broadcast n_query_heads (n_key_value_heads (attention (layer config))) in
  match rotary_embeddings (attention (layer config)) with
  | None => raise (ValueError no_rotary_msg)
  | Some rotary =>
      layers ← for_in (range (n_hidden_layers (layer config)))
                 (λ acc _, l ← DecoderLayer_new config rotary attention_heads device;
                           mret (acc ++ [l]))
                 [];
      output_layer_norm ← new "RMSNorm"
        {| rn_width := hidden_width;
           rn_eps := layer_norm_eps (layer config);
           rn_device := device |};
      mret {| self_embeddings := embeddings;
              self_layers := layers;
              self_output_layer_norm := output_layer_norm |}
  end.

(** A configuration to run the constructor on: floats are thousandths. *)
Definition toy_opaque : Opaque :=
  {| Float := Z; Device := unit; Activation := string; QkvMode := unit;
     SEPARATE := tt; AttentionHeads := Z * Z; key_value_broadcast := pair |}.

Definition toy_config (rotary : option (Z * Z)) (n_layers : Z)
  : @LlamaConfig toy_opaque :=
  @Build_LlamaConfig toy_opaque
    (@Build_LlamaEmbeddingConfig toy_opaque 100 64 1024)
    (@Build_LlamaLayerConfig toy_opaque
       (@Build_LlamaFeedForwardConfig toy_opaque 64 "silu" 256 false true)
       (@Build_LlamaAttentionConfig toy_opaque 8 2
          ((λ r, @Build_RotaryEmbeddingConfig toy_opaque r.1 r.2) <$> rotary)
          100 false false)
       1 100 n_layers).

End Llama.

(** ** Byte-level BPE piece encoder ([tokenization/bbpe_encoder.py]) *)

Module BBPE.

(** [cutlery.ByteBPEProcessor] with the two methods the encoder calls. *)
Class Cutlery : Type := {
  ByteBPEProcessor : Type;
  piece_id : ByteBPEProcessor → string → option Z;
  encode_as_ids : ByteBPEProcessor → string → list Z }.

(** A spaCy token, as far as the encoder reads it, and a [Doc]. *)
Record Token : Type := { text : string; whitespace_ : string }.

Definition Doc : Type := list Token.

(** [thinc.api.Ragged(data, lengths)] *)
Record Ragged : Type := mkRagged { data : list Z; lengths : list Z }.

(** [model.attrs] *)
Record Model `{Cutlery} : Type := {
  byte_bpe_processor : ByteBPEProcessor;
  unk_piece : string;
  bos_piece : string;
  eos_piece : string }.

(** [model.ops.asarray1i]: a list of integers as a one-dimensional array of
    the same integers. *)
Definition asarray1i (xs : list Z) : list Z := xs.

(** [bbp.encode_as_ids(text)]; the world is the list of the texts handed to
    the processor so far. *)
Definition call_encode_as_ids `{Cutlery} (bbp : ByteBPEProcessor) (text : string)
  : Py (list string) (list Z) :=
  λ log, (inr (encode_as_ids bbp text), log ++ [text]).

(** The body of [for idx, token in enumerate(doc)]. *)
Definition encode_token `{Cutlery} (bbp : ByteBPEProcessor) (doc : Doc)
    (st : list Z * list Z) (it : Z * Token) : Py (list string) (list Z * list Z) :=
  let '(doc_pieces, lens) := st in
  let '(idx, token) := it in
  text ← (if decide (idx > 0) then
            prev ← lift (getitem doc (idx - 1));
            mret (whitespace_ prev +:+ text token)
          else mret (text token));
  piece_ids ← call_encode_as_ids bbp text;
  mret (doc_pieces ++ piece_ids, lens ++ [Z.of_nat (length piece_ids)]).

(** The body of [for doc in X]. *)
Definition encode_doc `{Cutlery} (bbp : ByteBPEProcessor) (bos_id eos_id : Z)
    (pieces : list Ragged) (doc : Doc) : Py (list string) (list Ragged) :=
  let doc_pieces := [bos_id] in
  let lens := [1] in
  '(doc_pieces, lens) ← for_in (enumerate doc) (encode_token bbp doc) (doc_pieces, lens);
  let doc_pieces := doc_pieces ++ [eos_id] in
  let lens := lens ++ [1] in
  mret (pieces ++ [mkRagged (asarray1i doc_pieces) (asarray1i lens)]).

(** [byte_bpe_encoder_forward]; the second component of the result is the
    callback [lambda dY: []]. *)
Definition byte_bpe_encoder_forward `{Cutlery} (model : Model) (X : list Doc)
    (is_train : bool) : Py (list string) (list Ragged * (list Ragged → list Doc)) :=
  let bbp := byte_bpe_processor model in
  let bos_piece := bos_piece model in
  let eos_piece := eos_piece model in
  let unk_piece := unk_piece model in
  match piece_id bbp bos_piece with
  | None => raise (ValueError "Vocabulary does not have BOS piece")
  | Some bos_id =>
  match piece_id bbp eos_piece with
  | None => raise (ValueError "Vocabulary does not have EOS piece")
  | Some eos_id =>
  match piece_id bbp unk_piece with
  | None => raise (ValueError "Vocabulary does not have UNK piece")
  | Some unk_id =>
      pieces ← for_in X (encode_doc bbp bos_id eos_id) [];
      mret (pieces, λ dY, [])
  end end end.

(** The texts the specification has the tokens encoded from: the text of
    the token, with the trailing whitespace of the token before it in front
    when there is one. *)
Fixpoint texts_from (prev : option Token) (tokens : list Token) : list string :=
  match tokens with
  | [] => []
  | token :: rest =>
      match prev with
      | None => text token
      | Some p => whitespace_ p +:+ text token
      end :: texts_from (Some token) rest
  end.

Definition doc_texts (doc : Doc) : list string := texts_from None doc.

(** The [Ragged] of a document whose tokens are encoded from [doc_texts]. *)
Definition doc_ragged `{Cutlery} (bbp : ByteBPEProcessor) (bos_id eos_id : Z)
    (doc : Doc) : Ragged :=
  let encoded := encode_as_ids bbp <$> doc_texts doc in
  {| data := bos_id :: concat encoded ++ [eos_id];
     lengths := 1 :: ((λ ids, Z.of_nat (length ids)) <$> encoded) ++ [1] |}.

(** The sum of an array of integers. *)
Definition sum (xs : list Z) : Z := foldr Z.add 0 xs.

(** A processor to run the encoder on: the vocabulary is an association
    list, and a text is encoded as the code points of its characters. *)
Definition toy_cutlery : Cutlery :=
  {| ByteBPEProcessor := list (string * Z);
     piece_id := λ vocab piece, (λ r, r.2.2) <$> list_find (λ e, e.1 = piece) vocab;
     encode_as_ids := λ _ s, (λ c, Z.of_nat (Ascii.nat_of_ascii c)) <$> String.list_ascii_of_string s |}.

Definition toy_model (vocab : list (string * Z)) : @Model toy_cutlery :=
  @Build_Model toy_cutlery vocab "<unk>" "<s>" "</s>".

Definition toy_vocab : list (string * Z) := [("<s>", 0); ("</s>", 2); ("<unk>", 3)].

Definition hello_world : Doc :=
  [ {| text := "Hello"; whitespace_ := " " |};
    {| text := "world"; whitespace_ := "" |};
    {| text := "!"; whitespace_ := "" |} ].

End BBPE.

(** ** The decoder stack and its key/value cache

    [SelfAttention], [DecoderLayer], the decoder's forward pass and the cache
    are defined in files outside this embedding ([layers/attention.py],
    [layers/transformer.py], [models/transformer.py]); the only code at
    hand that runs them is the test [test_decoder_with_cache].  They are
    modelled here from the specification, on one sequence of the batch
    (the rows of a batch do not interact) and in evaluation mode (dropout
    is the identity).  The runs the properties below are about supply no
    padding mask, and none is modelled: every position holds a token, and
    the causal mask is the only one. *)

Module Transformer.

(** Modelled from the spec: the numeric kernels, which are missing here.
    Their values are taken exactly, not in floating point.  [attend q kvs]
    is scaled dot-product attention of the query [q] over the key/value
    pairs [kvs] that are not masked: a masked position has score minus
    infinity, hence weight zero, and contributes nothing. *)
Class Kernels : Type := {
  Hidden : Type;
  Head : Type;
  Weights : Type;
  Rotary : Type;
  embed : Weights → Z → Hidden;
  project : Weights → Hidden → Head;
  rotate : Rotary → nat → Head → Head;
  attend : Head → list (Head * Head) → Head;
  output_projection : Weights → list Head → Hidden;
  layer_norm : Weights → Hidden → Hidden;
  feed_forward : Weights → Hidden → Hidden;
  add : Hidden → Hidden → Hidden }.

(** Modelled from the spec: [AttentionHeads], the "immutable descriptor
    holding query head count and key/value head count". *)
Record AttentionHeads : Type := {
  n_query_heads : nat;
  n_key_value_heads : nat }.

(** Modelled from the spec: the parameters of [SelfAttention], one
    projection per head ("three independent projections"), the output
    projection and the optional rotary embedding. *)
Record SelfAttention `{Kernels} : Type := {
  attention_heads : AttentionHeads;
  query_weights : list Weights;
  key_weights : list Weights;
  value_weights : list Weights;
  output_weights : Weights;
  rotary_embeds : option Rotary }.

(** Modelled from the spec: the key and value projections of one position,
    one per key/value head; a [KeyValueCache] holds those of the positions
    seen so far and "grows along the sequence dimension". *)
Record KeyValue `{Kernels} : Type := mkKeyValue {
  key : list Head;
  value : list Head }.

Definition KeyValueCache `{Kernels} : Type := list KeyValue.

(** Modelled from the spec: "repeat/broadcast key and value projections to
    match query head count": each of the heads is repeated [n] times in
    place. *)
Definition repeat_interleave {A} (n : nat) (xs : list A) : list A :=
  x ← xs; replicate n x.

(** Modelled from the spec: how often a key/value head is repeated, the
    query head count over the key/value head count. *)
Definition broadcast_factor (heads : AttentionHeads) : nat :=
  (n_query_heads heads / n_key_value_heads heads)%nat.

(** Modelled from the spec: the keys and values of one position, broadcast
    to the query head count. *)
Definition broadcast `{Kernels} (heads : AttentionHeads) (kv : KeyValue) : KeyValue :=
  {| key := repeat_interleave (broadcast_factor heads) (key kv);
     value := repeat_interleave (broadcast_factor heads) (value kv) |}.

(** Modelled from the spec: a cache with every position broadcast. *)
Definition broadcast_cache `{Kernels} (heads : AttentionHeads) (c : KeyValueCache)
  : KeyValueCache :=
  broadcast heads <$> (c : list KeyValue).

(** Modelled from the spec: the projections of one position, one per head. *)
Definition project_heads `{Kernels} (ws : list Weights) (x : Hidden) : list Head :=
  (λ w, project w x) <$> ws.

(** Modelled from the spec: rotary embeddings rotate queries and keys
    "according to ... absolute position". *)
Definition rotate_heads `{Kernels} (rot : option Rotary) (position : nat)
    (hs : list Head) : list Head :=
  match rot with
  | Some r => rotate r position <$> hs
  | None => hs
  end.

(** Modelled from the spec: the rotated query heads of one position. *)
Definition queries `{Kernels} (att : SelfAttention) (position : nat) (x : Hidden)
  : list Head :=
  rotate_heads (rotary_embeds att) position (project_heads (query_weights att) x).

(** Modelled from the spec: the rotated key heads and the value heads of one
    position; this is what the cache keeps. *)
Definition new_key_value `{Kernels} (att : SelfAttention) (position : nat)
    (x : Hidden) : KeyValue :=
  {| key := rotate_heads (rotary_embeds att) position
              (project_heads (key_weights att) x);
     value := project_heads (value_weights att) x |}.

(** Modelled from the spec: the row of the "lower-triangular mask over the
    full (cache_length + new_length) key positions" for the query at the
    absolute position [position]. *)
Definition causal_mask (position n_keys : nat) : list bool :=
  (λ j, bool_decide (j ≤ position)%nat) <$> seq 0 n_keys.

(** Modelled from the spec: the entries of [xs] that [mask] lets through;
    the others are the "masked positions set to negative infinity before
    softmax". *)
Definition visible {A} (xs : list A) (mask : list bool) : list A :=
  omap (λ e : A * bool, if e.2 then Some e.1 else None) (zip xs mask).

(** Modelled from the spec: the key and the value of head [h] at each
    position. *)
Definition head_pairs `{Kernels} (h : nat) (kvs : list KeyValue)
  : list (Head * Head) :=
  omap (λ kv, k ← key kv !! h; v ← value kv !! h; Some (k, v)) kvs.

(** Modelled from the spec: the attention output of one query position:
    every query head attends over the broadcast keys and values the causal
    mask leaves, and the heads go through the output projection. *)
Definition attention_at `{Kernels} (att : SelfAttention) (kvs : list KeyValue)
    (position : nat) (q : list Head) : Hidden :=
  let shown :=
    visible (broadcast (attention_heads att) <$> kvs)
            (causal_mask position (length kvs)) in
  output_projection (output_weights att)
    (imap (λ h qh, attend qh (head_pairs h shown)) q).

(** Modelled from the spec: [SelfAttention.forward].  Positions are "offset
    by the cache's current length"; the "new key/value projections are
    concatenated onto any existing cached key/value along the sequence axis
    before being used for scoring and before being returned". *)
Definition self_attention `{Kernels} (att : SelfAttention) (xs : list Hidden)
    (cache : option KeyValueCache) (store_cache : bool)
  : list Hidden * option KeyValueCache :=
  let prior := default [] cache in
  let offset := length prior in
  let kvs := prior ++ imap (λ i x, new_key_value att (offset + i) x) xs in
  (imap (λ i x, attention_at att kvs (offset + i) (queries att (offset + i) x)) xs,
   if store_cache then Some kvs else None).

(** Modelled from the spec: the "ungrouped attention with Q heads" that a
    grouped attention is compared with: as many key/value heads as query
    heads, with key and value weights of its own. *)
Definition ungrouped `{Kernels} (att : SelfAttention) (wk wv : list Weights)
  : SelfAttention :=
  {| attention_heads :=
       {| n_query_heads := n_query_heads (attention_heads att);
          n_key_value_heads := n_query_heads (attention_heads att) |};
     query_weights := query_weights att;
     key_weights := wk;
     value_weights := wv;
     output_weights := output_weights att;
     rotary_embeds := rotary_embeds att |}.

(** Modelled from the spec: the parameters of a [DecoderLayer]. *)
Record DecoderLayer `{Kernels} : Type := {
  attention_layer : SelfAttention;
  attn_input_layer_norm : Weights;
  ffn_input_layer_norm : Weights;
  feed_forward_layer : Weights;
  use_parallel_attention : bool }.

(** Modelled from the spec: [DecoderLayer.forward]: "pre-normalization,
    self-attention (with residual add), pre-normalization, feed-forward
    (with residual add)", or, in parallel-attention mode, attention and
    feed-forward "computed from the same normalized input and their outputs
    summed directly"; the cache passes through. *)
Definition decoder_layer `{Kernels} (l : DecoderLayer) (xs : list Hidden)
    (cache : option KeyValueCache) (store_cache : bool)
  : list Hidden * option KeyValueCache :=
  let normed := layer_norm (attn_input_layer_norm l) <$> xs in
  let '(attn, new_cache) :=
    self_attention (attention_layer l) normed cache store_cache in
  let out :=
    if use_parallel_attention l then
      zip_with add xs
        (zip_with add attn (feed_forward (feed_forward_layer l) <$> normed))
    else
      (λ y, add y (feed_forward (feed_forward_layer l)
                     (layer_norm (ffn_input_layer_norm l) y)))
        <$> zip_with add xs attn in
  (out, new_cache).

(** Modelled from the spec: the decoder "owns embeddings module and an
    ordered list of layers", and the norm of its final output. *)
Record TransformerDecoder `{Kernels} : Type := {
  embeddings : Weights;
  layers : list DecoderLayer;
  output_layer_norm : Weights }.

(** Modelled from the spec: the output, "per-layer hidden states, final
    normalized hidden state (decoder), optional updated cache". *)
Record ModelOutputWithCache `{Kernels} : Type := {
  embedding_output : list Hidden;
  layer_hidden_states : list (list Hidden);
  last_hidden_layer_states : list Hidden;
  cache : option (list KeyValueCache) }.

(** Modelled from the spec: the loop over the layers, "feeding each layer's
    output as the next layer's input, accumulating per-layer hidden states
    and ... per-layer cache entries keyed by layer position".  Returns the
    hidden states of every layer and the new cache entry of every layer. *)
Fixpoint run_layers `{Kernels} (ls : list DecoderLayer) (xs : list Hidden)
    (cache : option (list KeyValueCache)) (store_cache : bool)
  : list (list Hidden) * list (option KeyValueCache) :=
  match ls with
  | [] => ([], [])
  | l :: ls' =>
      let layer_cache := cache ≫= head in
      let '(out, new_cache) := decoder_layer l xs layer_cache store_cache in
      let '(outs, new_caches) := run_layers ls' out (tail <$> cache) store_cache in
      (out :: outs, new_cache :: new_caches)
  end.

(** Modelled from the spec: the decoder's forward pass: "embeds input ids",
    runs the layers, and "returns stacked per-layer hidden states plus final
    layer-normalized output", with the updated cache when it is asked for. *)
Definition forward `{Kernels} (dec : TransformerDecoder) (input_ids : list Z)
    (cache : option (list KeyValueCache)) (store_cache : bool)
  : ModelOutputWithCache :=
  let emb := embed (embeddings dec) <$> input_ids in
  let '(outs, new_caches) := run_layers (layers dec) emb cache store_cache in
  {| embedding_output := emb;
     layer_hidden_states := outs;
     last_hidden_layer_states :=
       layer_norm (output_layer_norm dec) <$> default emb (last outs);
     cache := if store_cache then Some (omap id new_caches) else None |}.

(** *** Caches as objects *)

(** Modelled from the spec: "caches are owned exclusively by the caller
    across successive forward invocations": a cache entry is an object in
    a store, and the caller passes references to the decoder. *)
Record store `{Kernels} : Type := Store {
  objects : gmap nat KeyValueCache;
  next_ref : nat }.

(** Modelled from the spec: what a call returns when caches are passed by
    reference. *)
Record OutputRef `{Kernels} : Type := {
  hidden_states : list (list Hidden);
  last_hidden : list Hidden;
  cache_refs : option (list nat) }.

(** Modelled from the spec: a new object holding [c]. *)
Definition alloc `{Kernels} (c : KeyValueCache) : Py store nat :=
  λ s, (inr (next_ref s),
        {| objects := <[next_ref s := c]> (objects s);
           next_ref := S (next_ref s) |}).

(** Modelled from the spec: the object behind a reference (an empty cache
    behind a reference to nothing). *)
Definition deref `{Kernels} (r : nat) : Py store KeyValueCache :=
  λ s, (inr (default [] (objects s !! r)), s).

(** Modelled from the spec: the prior cache a call reads through the
    references it is given. *)
Definition prior_of `{Kernels} (s : store) (cache : option (list nat))
  : option (list KeyValueCache) :=
  fmap (M := list) (λ r, default [] (objects s !! r)) <$> cache.

(** Modelled from the spec: a call of the decoder on caches held by the
    caller: the prior entries are read, and "each call allocates a new
    cache snapshot by concatenation" that is "returned to caller". *)
Definition forward_ref `{Kernels} (dec : TransformerDecoder) (input_ids : list Z)
    (cache : option (list nat)) (store_cache : bool) : Py store OutputRef :=
  prior ← match cache with
          | None => mret None
          | Some refs =>
              cs ← for_in refs (λ acc r, c ← deref r; mret (acc ++ [c])) [];
              mret (Some cs)
          end;
  let out := forward dec input_ids prior store_cache in
  new_refs ← match Transformer.cache out with
             | None => mret None
             | Some cs =>
                 rs ← for_in cs (λ acc c, r ← alloc c; mret (acc ++ [r])) [];
                 mret (Some rs)
             end;
  mret {| hidden_states := layer_hidden_states out;
          last_hidden := last_hidden_layer_states out;
          cache_refs := new_refs |}.

(** Exact kernels over the integers to run the model on. *)
Definition toy_kernels : Kernels :=
  {| Hidden := Z; Head := Z; Weights := Z; Rotary := Z;
     embed := λ w t, w + t;
     project := λ w x, w * x + 1;
     rotate := λ r p h, h + r * Z.of_nat p;
     attend := λ q kvs, foldr (λ kv acc, q * kv.1 + kv.2 + 2 * acc) 0 kvs;
     output_projection := λ w hs, foldr (λ h acc, h + 3 * acc) w hs;
     layer_norm := λ w x, x - w;
     feed_forward := λ w x, x * x + w;
     add := Z.add |}.

Definition toy_attention (n_q n_kv : nat) (wk wv : list Z)
  : @SelfAttention toy_kernels :=
  @Build_SelfAttention toy_kernels
    {| n_query_heads := n_q; n_key_value_heads := n_kv |}
    [1; 2; 3; 4] wk wv 5 (Some 7).

Definition toy_layer (parallel : bool) : @DecoderLayer toy_kernels :=
  @Build_DecoderLayer toy_kernels (toy_attention 4 2 [2; 3] [1; -1]) 1 2 3 parallel.

Definition toy_decoder : @TransformerDecoder toy_kernels :=
  @Build_TransformerDecoder toy_kernels 10 [toy_layer false; toy_layer true] 4.

(** A store holding the cache of a two-layer decoder after one position. *)
Definition toy_store : @store toy_kernels :=
  @Store toy_kernels
    (<[1%nat := [@mkKeyValue toy_kernels [5; 6] [7; 8]]]>
       (<[0%nat := [@mkKeyValue toy_kernels [1; 2] [3; 4]]]> ∅))
    2.

End Transformer.

(** ** Llama decoder: what the constructor builds *)

Module LlamaLayers.
Import Llama.

(** The object [DecoderLayer_new] returns when the next free identity is
    [base]: the nine objects of a layer take the identities [base] to
    [base + 8], in the order of [layer_classes]. *)
Definition layer_at `{Opaque} (config : LlamaConfig)
    (rotary : RotaryEmbeddingConfig) (attention_heads : AttentionHeads)
    (device : option Device) (base : nat) : obj DecoderLayerArgs :=
  let hidden_width := hidden_width (feedforward (layer config)) in
  let norm :=
    {| rn_width := hidden_width;
       rn_eps := layer_norm_eps (layer config);
       rn_device := device |} in
  Obj (base + 8)
    {| dl_attention_layer :=
         Obj (base + 1)
           {| sa_attention_heads := attention_heads;
              sa_dropout_prob := attn_dropout_prob (attention (layer config));
              sa_hidden_width := hidden_width;
              sa_qkv_mode := SEPARATE;
              sa_rotary_embeds :=
                Obj base
                  {| qk_fraction := rotary_fraction rotary;
                     qk_base := rotary_base rotary;
                     qk_head_width :=
                       hidden_width `div` n_query_heads (attention (layer config)) |};
              sa_use_bias := attn_use_bias (attention (layer config));
              sa_device := device |};
       dl_feed_forward_layer :=
         Obj (base + 3)
           {| pf_activation := Obj (base + 2) (activation (feedforward (layer config)));
              pf_hidden_width := hidden_width;
              pf_intermediate_width := intermediate_width (feedforward (layer config));
              pf_use_bias := ff_use_bias (feedforward (layer config));
              pf_use_gate := use_gate (feedforward (layer config));
              pf_device := device |};
       dl_dropouts := Obj (base + 4) (layer_dropout_prob (layer config));
       dl_layer_norms :=
         Obj (base + 7)
           {| attn_input_layer_norm := Obj (base + 5) norm;
              ffn_input_layer_norm := Obj (base + 6) norm |};
       dl_use_parallel_attention :=
         use_parallel_attention (attention (layer config)) |}.

(** The events of building one layer from the identity [base] on. *)
Definition layer_events (base : nat) : list event :=
  imap (λ i c, Built c (base + i)) layer_classes.

(** The identities of the two input layer norms of a layer. *)
Definition norm_oids `{Opaque} (l : obj DecoderLayerArgs) : nat * nat :=
  (oid (attn_input_layer_norm (args (dl_layer_norms (args l)))),
   oid (ffn_input_layer_norm (args (dl_layer_norms (args l))))).

(** The devices the modules of a layer were built with. *)
Definition layer_devices `{Opaque} (l : obj DecoderLayerArgs) : list (option Device) :=
  [ sa_device (args (dl_attention_layer (args l)));
    pf_device (args (dl_feed_forward_layer (args l)));
    rn_device (args (attn_input_layer_norm (args (dl_layer_norms (args l)))));
    rn_device (args (ffn_input_layer_norm (args (dl_layer_norms (args l))))) ].

(** The hidden widths the modules of a layer were built with. *)
Definition layer_widths `{Opaque} (l : obj DecoderLayerArgs) : list Z :=
  [ sa_hidden_width (args (dl_attention_layer (args l)));
    pf_hidden_width (args (dl_feed_forward_layer (args l)));
    rn_width (args (attn_input_layer_norm (args (dl_layer_norms (args l)))));
    rn_width (args (ffn_input_layer_norm (args (dl_layer_norms (args l))))) ].

(** A toy configuration with a given query head count. *)
Definition toy_config_heads (n_heads : Z) (rotary : option (Z * Z)) (n_layers : Z)
  : @LlamaConfig toy_opaque :=
  @Build_LlamaConfig toy_opaque
    (@Build_LlamaEmbeddingConfig toy_opaque 100 64 1024)
    (@Build_LlamaLayerConfig toy_opaque
       (@Build_LlamaFeedForwardConfig toy_opaque 64 "silu" 256 false true)
       (@Build_LlamaAttentionConfig toy_opaque n_heads 2
          ((λ r, @Build_RotaryEmbeddingConfig toy_opaque r.1 r.2) <$> rotary)
          100 false false)
       1 100 n_layers).

End LlamaLayers.

(** ** Byte-level BPE piece encoder: building and (de)serializing the model *)

Module BBPEAttrs.
Import BBPE.

(** What the rest of [bbpe_encoder.py] takes from [cutlery] and [srsly]: the
    Python values a processor hands out and is built from, [msgpack] bytes,
    the constructor [ByteBPEProcessor(vocab, merges)] and the attributes
    [vocab] and [merges], and the two [msgpack] functions.  A mapping with
    string keys is a [gmap]; [msgpack_loads] gives [None] where it raises. *)
Class Srsly `{Cutlery} : Type := {
  PyObj : Type;
  Bytes : Type;
  empty_dict : PyObj;
  empty_list : PyObj;
  ByteBPEProcessor_new : PyObj → PyObj → ByteBPEProcessor;
  vocab : ByteBPEProcessor → PyObj;
  merges : ByteBPEProcessor → PyObj;
  msgpack_dumps : gmap string PyObj → Bytes;
  msgpack_loads : Bytes → option (gmap string PyObj) }.

(** What deserializing can raise. *)
Inductive attr_error : Type :=
| MsgpackError
| KeyError (key : string).

(** [serialize_byte_bpe_processor(_, value, name, model)] *)
Definition serialize_byte_bpe_processor `{Srsly} (value : ByteBPEProcessor)
    (name : string) (model : Model) : Bytes :=
  let data : gmap string PyObj :=
    <["vocab" := vocab value]> (<["merges" := merges value]> ∅) in
  msgpack_dumps data.

(** [deserialize_byte_bpe_processor(_, value, name, model)] *)
Definition deserialize_byte_bpe_processor `{Srsly} (value : Bytes)
    (name : string) (model : Model) : attr_error + ByteBPEProcessor :=
  match msgpack_loads value with
  | None => inl MsgpackError
  | Some data =>
      match data !! "vocab" with
      | None => inl (KeyError "vocab")
      | Some v =>
          match data !! "merges" with
          | None => inl (KeyError "merges")
          | Some m => inr (ByteBPEProcessor_new v m)
          end
      end
  end.

(** [build_byte_bpe_encoder()]: the attributes of the model it returns. *)
Definition build_byte_bpe_encoder `{Srsly} : Model :=
  {| byte_bpe_processor := ByteBPEProcessor_new empty_dict empty_list;
     unk_piece := "<unk>";
     bos_piece := "<s>";
     eos_piece := "</s>" |}.

(** A model with another processor, and with another UNK piece. *)
Definition with_processor `{Cutlery} (model : Model) (bbp : ByteBPEProcessor) : Model :=
  {| byte_bpe_processor := bbp;
     unk_piece := unk_piece model;
     bos_piece := bos_piece model;
     eos_piece := eos_piece model |}.

Definition with_unk_piece `{Cutlery} (model : Model) (piece : string) : Model :=
  {| byte_bpe_processor := byte_bpe_processor model;
     unk_piece := piece;
     bos_piece := bos_piece model;
     eos_piece := eos_piece model |}.

(** The rows of a [Ragged]: [lengths] cuts [data] into consecutive rows. *)
Fixpoint rows (lens : list Z) (data : list Z) : list (list Z) :=
  match lens with
  | [] => []
  | n :: lens' => take (Z.to_nat n) data :: rows lens' (drop (Z.to_nat n) data)
  end.

(** Strings joined without a separator. *)
Definition join (ss : list string) : string := foldr String.append "" ss.

(** The text of a token with its trailing whitespace. *)
Definition text_with_ws (token : Token) : string :=
  text token +:+ whitespace_ token.

(** [srsly] and [cutlery] for the toy processor of [BBPE.toy_cutlery]: a
    value is a vocabulary or a list of merges, bytes are the mapping
    itself. *)
Definition toy_srsly : @Srsly toy_cutlery :=
  @Build_Srsly toy_cutlery
    (list (string * Z) + list (string * string))
    (gmap string (list (string * Z) + list (string * string)))
    (inl []) (inr [])
    (λ v _, match v with inl vocab => vocab | inr _ => [] end)
    inl
    (λ _, inr [])
    id
    Some.

End BBPEAttrs.

(** * Properties *)

(** ** The [Py] monad and the loops *)

Module PythonFacts.

Lemma bind_inr {W A B} (m : Py W A) (k : A → Py W B) w a w' :
  m w = (inr a, w') → bind m k w = k a w'.
Proof. intros E. unfold bind. by rewrite E. Qed.

Lemma mbind_inr {W A B} (m : Py W A) (k : A → Py W B) w a w' :
  m w = (inr a, w') → (m ≫= k) w = k a w'.
Proof. apply bind_inr. Qed.

Lemma length_range n : length (range n) = Z.to_nat n.
Proof. unfold range. by rewrite length_fmap, length_seq. Qed.

Lemma default_last_cons {A} (x y : A) (l : list A) :
  default x (last (y :: l)) = default y (last l).
Proof.
  destruct l as [|z l]; [done|].
  rewrite last_cons. destruct (last (z :: l)) eqn:E; [done|].
  by apply last_None in E.
Qed.

Lemma default_last_app {A} (x : A) (l1 l2 : list A) :
  default x (last (l1 ++ l2)) = default (default x (last l1)) (last l2).
Proof. rewrite last_app. by destruct (last l2). Qed.

End PythonFacts.

(** ** ALBERT encoder *)

Module AlbertFacts.
Import Albert PythonFacts.

Section with_submodules.
Context `{Submodules}.

(** Building the groups: one new object per element of the range, with
    consecutive identities. *)
Lemma build_groups_spec (lc : AlbertLayerConfig) (ac : AttentionConfig)
    {X} (xs : list X) (acc : list AlbertLayerGroup) (w : world) :
  ∃ gs,
    for_in xs (λ acc _, g ← AlbertLayerGroup_new lc ac; mret (acc ++ [g])) acc w
    = (inr (acc ++ gs),
       World (next_id w + length xs)%nat
             (events w ++ (Built "AlbertLayerGroup" <$> seq (next_id w) (length xs))))
    ∧ grp_oid <$> gs = seq (next_id w) (length xs).
Proof.
  revert acc w. induction xs as [|x xs IH]; intros acc w.
  - exists []. simpl. rewrite !app_nil_r, Nat.add_0_r. by destruct w.
  - simpl.
    set (g := {| grp_oid := next_id w;
                 grp_params := group_params lc ac (next_id w) |}).
    set (w1 := World (S (next_id w))
                     (events w ++ [Built "AlbertLayerGroup" (next_id w)])).
    rewrite (bind_inr _ _ w (acc ++ [g]) w1) by reflexivity.
    destruct (IH (acc ++ [g]) w1) as (gs & -> & Hoid).
    exists (g :: gs). split.
    + subst w1. simpl. rewrite <- !app_assoc. simpl. do 2 f_equal. lia.
    + rewrite fmap_cons. cbn [length seq]. f_equal. exact Hoid.
Qed.

Lemma call_embeddings_eq (e : BertEmbeddings) ids tti w :
  call_embeddings e ids tti w
  = (inr (embeddings_call (emb_params e) ids tti None),
     World (next_id w) (events w ++ [Called (emb_oid e)])).
Proof. reflexivity. Qed.

(** The inner loop applies one group [n] times in a chain. *)
Lemma inner_loop_spec (g : AlbertLayerGroup) (m : AttentionMask) {X} (xs : list X)
    (x : Hidden) (outs : list Hidden) (w : world) :
  let ys := chain (replicate (length xs) g) m x in
  for_in xs
    (λ '(layer_output, layer_outputs) _,
       layer_output ← call_group g layer_output m;
       mret (layer_output, layer_outputs ++ [layer_output]))
    (x, outs) w
  = (inr (default x (last ys), outs ++ ys),
     World (next_id w)
           (events w ++ (Called ∘ grp_oid <$> replicate (length xs) g))).
Proof.
  revert x outs w. induction xs as [|a xs IH]; intros x outs w; simpl.
  - rewrite !app_nil_r. by destruct w.
  - set (y := group_call (grp_params g) x m).
    rewrite (bind_inr _ _ w (y, outs ++ [y])
               (World (next_id w) (events w ++ [Called (grp_oid g)])))
      by reflexivity.
    rewrite IH. simpl. rewrite <- !app_assoc. simpl.
    by rewrite default_last_cons.
Qed.

Lemma chain_app (ms1 ms2 : list AlbertLayerGroup) m x :
  chain (ms1 ++ ms2) m x
  = chain ms1 m x ++ chain ms2 m (default x (last (chain ms1 m x))).
Proof.
  revert x. induction ms1 as [|g ms1 IH]; intros x; simpl; [done|].
  f_equal. rewrite IH. by rewrite default_last_cons.
Qed.

Lemma length_chain (ms : list AlbertLayerGroup) m x :
  length (chain ms m x) = length ms.
Proof. revert x. induction ms; intros; simpl; auto. Qed.

(** The two nested loops run the chain of [position_groups]. *)
Lemma forward_layers_spec (groups : list AlbertLayerGroup) (n : Z)
    (m : AttentionMask) (x : Hidden) (outs : list Hidden) (w : world) :
  let mods := position_groups groups (Z.to_nat n) in
  forward_layers groups n m (x, outs) w
  = (inr (default x (last (chain mods m x)), outs ++ chain mods m x),
     World (next_id w) (events w ++ (Called ∘ grp_oid <$> mods))).
Proof.
  unfold forward_layers, position_groups.
  revert x outs w. induction groups as [|g groups IH]; intros x outs w.
  - simpl. rewrite !app_nil_r. by destruct w.
  - cbn [for_in]. erewrite bind_inr; [|apply inner_loop_spec].
    rewrite IH. rewrite length_range. cbn [mbind list_bind]. cbn [next_id events].
    rewrite chain_app, fmap_app, <- !app_assoc. f_equal. f_equal.
    by rewrite default_last_app.
Qed.

Lemma position_groups_lookup (groups : list AlbertLayerGroup) (n g k : nat) :
  (k < n)%nat → position_groups groups n !! (g * n + k)%nat = groups !! g.
Proof.
  intros Hk. unfold position_groups. revert g.
  induction groups as [|a groups IH]; intros g.
  - by rewrite !lookup_nil.
  - cbn [mbind list_bind]. destruct g as [|g].
    + rewrite lookup_app_l by (rewrite length_replicate; lia).
      simpl. by apply lookup_replicate_2.
    + rewrite lookup_app_r by (rewrite length_replicate; lia).
      rewrite length_replicate.
      replace (S g * n + k - n)%nat with (g * n + k)%nat by lia.
      apply IH.
Qed.

Lemma length_position_groups (groups : list AlbertLayerGroup) (n : nat) :
  length (position_groups groups n) = (length groups * n)%nat.
Proof.
  unfold position_groups. induction groups as [|a groups IH]; [done|].
  cbn [mbind list_bind]. rewrite length_app, length_replicate.
  fold (mbind (M := list) (replicate n) groups). rewrite IH. simpl. lia.
Qed.

(** Every element of a chain is its module applied to the element before
    it, the first to the input of the chain. *)
Lemma chain_lookup (ms : list AlbertLayerGroup) (m : AttentionMask) (x : Hidden)
    (p : nat) (g : AlbertLayerGroup) :
  ms !! p = Some g →
  ∃ x', match p with O => Some x | S p' => chain ms m x !! p' end = Some x'
        ∧ chain ms m x !! p = Some (group_call (grp_params g) x' m).
Proof.
  revert x p. induction ms as [|a ms IH]; intros x p Hp; [by rewrite lookup_nil in Hp|].
  destruct p as [|p]; simpl in *.
  - simplify_eq. eauto.
  - destruct (IH (group_call (grp_params a) x m) p Hp) as (x' & Hx' & Hy).
    exists x'. split; [|done]. destruct p; simpl; [by simplify_eq|done].
Qed.

Lemma calls_of_app (es1 es2 : list event) :
  calls_of (es1 ++ es2) = calls_of es1 ++ calls_of es2.
Proof. apply omap_app. Qed.

Lemma calls_of_called {X} (f : X → nat) (xs : list X) :
  calls_of (Called ∘ f <$> xs) = f <$> xs.
Proof.
  induction xs as [|x xs IH]; [done|].
  unfold calls_of in *. simpl. f_equal. exact IH.
Qed.

Lemma built_of_app cls (es1 es2 : list event) :
  built_of cls (es1 ++ es2) = built_of cls es1 ++ built_of cls es2.
Proof. apply omap_app. Qed.

Lemma built_of_built cls (oids : list nat) :
  built_of cls (Built cls <$> oids) = oids.
Proof.
  induction oids as [|o oids IH]; [done|].
  unfold built_of in *. simpl. rewrite decide_True by done.
  f_equal. exact IH.
Qed.

(** C2 (ALBERT constructor, lines 30-45).  For a configuration with [L]
    hidden layers and [G > 0] hidden groups: when [L mod G] is not zero the
    constructor raises the [ValueError] and the world is as it was, so no
    module has been built; when [L mod G] is zero it returns an encoder
    with exactly [G] layer groups, which are the [AlbertLayerGroup] modules
    it built. *)
Theorem albert_init_layers_divisible_by_groups
    (config : AlbertConfig) (w : world) :
  let L := num_hidden_layers (layer config) in
  let G := num_hidden_groups (layer config) in
  0 < G →
  (L `mod` G ≠ 0 →
     AlbertEncoder_init config w = (inl (ValueError (divisable_msg L G)), w))
  ∧ (L `mod` G = 0 →
     ∃ enc w',
       AlbertEncoder_init config w = (inr enc, w')
       ∧ Z.of_nat (length (self_groups enc)) = G
       ∧ built_of "AlbertLayerGroup" (events w')
         = built_of "AlbertLayerGroup" (events w) ++ (grp_oid <$> self_groups enc)).
Proof.
  intros L G HG.
  assert (Hmod : py_mod L G = inr (L `mod` G)).
  { unfold py_mod. by rewrite decide_False by lia. }
  unfold AlbertEncoder_init. cbv zeta. fold L G. rewrite Hmod.
  split; intros HLG.
  - erewrite mbind_inr by reflexivity. by rewrite decide_True.
  - erewrite mbind_inr by reflexivity. rewrite decide_False by (intros ?; done).
    set (e := {| emb_oid := next_id w;
                 emb_params := embeddings_params (embedding config) (layer config)
                                 (next_id w) |}).
    set (w1 := World (S (next_id w)) (events w ++ [Built "BertEmbeddings" (next_id w)])).
    rewrite (mbind_inr _ _ w e w1) by reflexivity.
    destruct (build_groups_spec (layer config) (attention config) (range G) [] w1)
      as (gs & Hgs & Hoid).
    erewrite mbind_inr by exact Hgs.
    eexists _, _. split; [reflexivity|]. cbn [self_groups app events].
    split.
    + apply (f_equal length) in Hoid.
      rewrite length_fmap, length_seq, length_range in Hoid. lia.
    + rewrite Hoid. subst w1. cbn [events next_id].
      rewrite !built_of_app, built_of_built. simpl. by rewrite app_nil_r.
Qed.


(** C3 (ALBERT forward, lines 64-76).  For an encoder with [L >= 0] hidden
    layers and [G > 0] groups, [G] dividing [L], the forward pass returns
    exactly [L] hidden states, and at the layer position [g * (L/G) + k]
    (for [g < G] and [k < L/G]) the module called is the group [g] of
    [self.groups], one and the same object for all the positions of the
    group, applied to the output of the layer before it (to the embeddings
    at position 0). *)
Theorem albert_forward_shares_group_weights
    (self : AlbertEncoder) (input_ids : list (list Z))
    (attention_mask : option AttentionMask)
    (token_type_ids : option (list (list Z))) (w : world) :
  let L := self_num_hidden_layers self in
  let G := Z.of_nat (length (self_groups self)) in
  let m := match attention_mask with
           | None => _create_attention_mask self input_ids
           | Some m => m
           end in
  0 ≤ L → 0 < G → L `mod` G = 0 →
  ∃ out w',
    forward self input_ids attention_mask token_type_ids w = (inr out, w')
    ∧ Z.of_nat (length (layer_hidden_states out)) = L
    ∧ ∀ g k : nat,
        Z.of_nat g < G → Z.of_nat k < L `div` G →
        let p := (g * Z.to_nat (L `div` G) + k)%nat in
        ∃ group x,
          self_groups self !! g = Some group
          ∧ layer_input out p = Some x
          ∧ layer_hidden_states out !! p
            = Some (group_call (grp_params group) x m)
          ∧ calls_of (events w') !! (length (calls_of (events w)) + S p)%nat
            = Some (grp_oid group).
Proof.
  intros L G m HL HG HLG. unfold forward. fold m.
  assert (Hdiv : py_floordiv L G = inr (L `div` G)).
  { unfold py_floordiv. by rewrite decide_False by lia. }
  cbv zeta. fold m L G. rewrite Hdiv.
  erewrite mbind_inr by apply call_embeddings_eq.
  erewrite mbind_inr by reflexivity.
  erewrite mbind_inr by apply forward_layers_spec.
  cbn [app snd next_id events].
  set (n := Z.to_nat (L `div` G)).
  set (mods := position_groups (self_groups self) n).
  set (emb := embeddings_call _ _ _ _).
  eexists _, _. split; [reflexivity|]. cbn [layer_hidden_states events].
  assert (Hn : Z.of_nat n = L `div` G).
  { subst n. rewrite Z2Nat.id; [done|]. apply Z.div_pos; lia. }
  split.
  { rewrite length_chain. subst mods. rewrite length_position_groups.
    rewrite Nat2Z.inj_mul, Hn. fold G.
    rewrite Z.mul_comm. symmetry. rewrite Z.mul_comm.
    apply Z.div_exact; lia. }
  intros g k Hg Hk. set (p := (g * n + k)%nat).
  destruct (lookup_lt_is_Some_2 (self_groups self) g) as [group Hgroup]; [lia|].
  assert (Hmods : mods !! p = Some group).
  { subst mods p. rewrite position_groups_lookup by lia. done. }
  destruct (chain_lookup mods m emb p group Hmods) as (x & Hx & Hy).
  exists group, x. split; [done|]. split; [|split; [done|]].
  - destruct p; [done|]. exact Hx.
  - rewrite !calls_of_app, calls_of_called, <- app_assoc.
    rewrite lookup_app_r by lia.
    replace (length (calls_of (events w)) + S p - length (calls_of (events w)))%nat
      with (S p) by lia.
    simpl. rewrite list_lookup_fmap, Hmods. done.
Qed.

End with_submodules.

(** The constructor on 4 layers in 2 groups. *)
Lemma albert_init_layers_divisible_by_groups_witness :
  ∃ enc w',
    @AlbertEncoder_init _ toy_submodules (toy_config 4 2) (World 0 []) = (inr enc, w')
    ∧ Z.of_nat (length (self_groups enc)) = 2
    ∧ built_of "AlbertLayerGroup" (events w') = [] ++ (grp_oid <$> self_groups enc).
Proof.
  apply (@albert_init_layers_divisible_by_groups _ toy_submodules
           (toy_config 4 2) (World 0 [])); [simpl; lia | reflexivity].
Defined.

(** The forward pass of an encoder of 4 layers in 2 groups. *)
Lemma albert_forward_shares_group_weights_witness :
  ∃ out w',
    @forward _ toy_submodules toy_encoder [[1; 2; 0]] None None (World 3 [])
    = (inr out, w')
    ∧ Z.of_nat (length (layer_hidden_states out)) = 4.
Proof.
  destruct (@albert_forward_shares_group_weights _ toy_submodules toy_encoder
              [[1; 2; 0]] None None (World 3 []))
    as (out & w' & Hrun & Hlen & _); [simpl; lia | simpl; lia | reflexivity |].
  exists out, w'. split; [exact Hrun | exact Hlen].
Defined.

End AlbertFacts.

(** ** Llama decoder *)

Module LlamaFacts.
Import Llama PythonFacts.

Section with_opaque.
Context `{Opaque}.

Lemma new_eq {A} (cls : string) (a : A) (w : world) :
  new cls a w
  = (inr (Obj (next_id w) a),
     World (S (next_id w)) (events w ++ [Built cls (next_id w)])).
Proof. reflexivity. Qed.


(** One layer is built whenever the head width can be computed. *)
Lemma DecoderLayer_new_ok (config : LlamaConfig) rotary heads device (w : world) :
  n_query_heads (attention (layer config)) ≠ 0 →
  ∃ l, DecoderLayer_new config rotary heads device w
       = (inr l, World (9 + next_id w)%nat
                       (events w ++ imap (λ i c, Built c (next_id w + i)) layer_classes)).
Proof.
  intros Hq. unfold DecoderLayer_new, layer_norm. cbv zeta.
  unfold py_floordiv. rewrite decide_False by done.
  erewrite mbind_inr by reflexivity.
  do 8 (erewrite mbind_inr by apply new_eq).
  rewrite new_eq. eexists. f_equal. cbn [events next_id].
  rewrite <- !app_assoc. f_equal. simpl. rewrite !Nat.add_succ_r, Nat.add_0_r. reflexivity.
Qed.

(** With rotary parameters and a head count that is not zero the
    constructor returns a decoder with [n_hidden_layers] layers. *)
Lemma llama_init_with_rotary_embeddings
    (config : LlamaConfig) (device : option Device) (w : world) rotary :
  rotary_embeddings (attention (layer config)) = Some rotary →
  n_query_heads (attention (layer config)) ≠ 0 →
  ∃ dec w',
    LlamaDecoder_init config device w = (inr dec, w')
    ∧ length (self_layers dec) = Z.to_nat (n_hidden_layers (layer config)).
Proof.
  intros Hrot Hq. unfold LlamaDecoder_init.
  do 4 (erewrite mbind_inr by apply new_eq).
  cbv zeta. rewrite Hrot.
  set (heads := key_value_broadcast _ _).
  assert (Hloop : ∀ (xs : list Z) acc w1, ∃ ls w2,
    for_in xs (λ acc _, l ← DecoderLayer_new config rotary heads device;
                        mret (acc ++ [l])) acc w1
    = (inr (acc ++ ls), w2) ∧ length ls = length xs).
  { induction xs as [|x xs IH]; intros acc w1.
    - exists [], w1. by rewrite app_nil_r.
    - destruct (DecoderLayer_new_ok config rotary heads device w1 Hq) as [l Hl].
      cbn [for_in]. erewrite bind_inr; last first.
      { erewrite mbind_inr by exact Hl. reflexivity. }
      destruct (IH (acc ++ [l]) (World (9 + next_id w1)%nat
        (events w1 ++ imap (λ i c, Built c (next_id w1 + i)) layer_classes)))
        as (ls & w2 & -> & Hlen).
      exists (l :: ls), w2. rewrite <- app_assoc. split; [done|]. simpl. by rewrite Hlen. }
  match goal with
  | |- context [ (for_in _ _ [] ≫= _) ?w0 ] =>
      destruct (Hloop (range (n_hidden_layers (layer config))) [] w0)
        as (ls & w2 & Hrun & Hlen)
  end.
  erewrite mbind_inr by exact Hrun.
  erewrite mbind_inr by apply new_eq.
  eexists _, _. split; [reflexivity|]. cbn [self_layers app].
  rewrite Hlen. unfold range. by rewrite length_fmap, length_seq.
Qed.

End with_opaque.


End LlamaFacts.

(** ** Byte-level BPE piece encoder *)

Module BBPEFacts.
Import BBPE PythonFacts.

Section with_cutlery.
Context `{Cutlery}.

(** One token: the text handed to the processor is the one [texts_from]
    gives for the token, when [prev] is what precedes it in the document. *)
Lemma encode_token_spec (bbp : ByteBPEProcessor) (pre : list Token) (token : Token)
    (rest : list Token) (doc_pieces lens : list Z) (log : list string) :
  let doc := pre ++ token :: rest in
  let text := match last pre with
              | None => text token
              | Some p => whitespace_ p +:+ text token
              end in
  encode_token bbp doc (doc_pieces, lens) (Z.of_nat (length pre), token) log
  = (inr (doc_pieces ++ encode_as_ids bbp text,
          lens ++ [Z.of_nat (length (encode_as_ids bbp text))]),
     log ++ [text]).
Proof.
  intros doc txt. unfold encode_token.
  destruct (decide (Z.of_nat (length pre) > 0)) as [Hpos|Hzero].
  - destruct (last pre) as [p|] eqn:Hlast.
    2:{ apply last_None in Hlast. subst pre. simpl in Hpos. lia. }
    assert (Hget : getitem doc (Z.of_nat (length pre) - 1) = inr p).
    { unfold getitem. rewrite decide_False by lia.
      replace (Z.to_nat (Z.of_nat (length pre) - 1)) with (pred (length pre)) by lia.
      subst doc. rewrite lookup_app_l by lia.
      rewrite <- last_lookup, Hlast. done. }
    erewrite mbind_inr; last first.
    { erewrite mbind_inr by (unfold lift; rewrite Hget; reflexivity). reflexivity. }
    reflexivity.
  - destruct pre as [|p0 pre]; [reflexivity|]. simpl in Hzero. lia.
Qed.

(** The loop over the tokens of a document, started anywhere in it. *)
Lemma encode_tokens_spec (bbp : ByteBPEProcessor) (pre rest : list Token)
    (doc_pieces lens : list Z) (log : list string) :
  let doc := pre ++ rest in
  let texts := texts_from (last pre) rest in
  let encoded := encode_as_ids bbp <$> texts in
  for_in (zip (Z.of_nat <$> seq (length pre) (length rest)) rest)
    (encode_token bbp doc) (doc_pieces, lens) log
  = (inr (doc_pieces ++ concat encoded,
          lens ++ ((λ ids, Z.of_nat (length ids)) <$> encoded)),
     log ++ texts).
Proof.
  revert pre doc_pieces lens log.
  induction rest as [|token rest IH]; intros pre doc_pieces lens log.
  - simpl. by rewrite !app_nil_r.
  - cbn [length seq fmap list_fmap zip zip_with for_in texts_from].
    erewrite bind_inr by apply encode_token_spec.
    specialize (IH (pre ++ [token])).
    rewrite length_app, Nat.add_1_r, last_snoc, <- app_assoc in IH.
    cbn [app] in IH. cbv zeta in IH. rewrite IH.
    cbn [fmap list_fmap concat]. by rewrite <- !app_assoc.
Qed.

(** One document. *)
Lemma encode_doc_spec (bbp : ByteBPEProcessor) (bos_id eos_id : Z)
    (pieces : list Ragged) (doc : Doc) (log : list string) :
  encode_doc bbp bos_id eos_id pieces doc log
  = (inr (pieces ++ [doc_ragged bbp bos_id eos_id doc]), log ++ doc_texts doc).
Proof.
  unfold encode_doc, enumerate, range. rewrite Nat2Z.id.
  erewrite mbind_inr by apply (encode_tokens_spec bbp [] doc).
  reflexivity.
Qed.

(** All documents. *)
Lemma encode_docs_spec (bbp : ByteBPEProcessor) (bos_id eos_id : Z)
    (X : list Doc) (pieces : list Ragged) (log : list string) :
  for_in X (encode_doc bbp bos_id eos_id) pieces log
  = (inr (pieces ++ (doc_ragged bbp bos_id eos_id <$> X)),
     log ++ concat (doc_texts <$> X)).
Proof.
  revert pieces log. induction X as [|doc X IH]; intros pieces log.
  - simpl. by rewrite !app_nil_r.
  - cbn [for_in]. erewrite bind_inr by apply encode_doc_spec.
    rewrite IH. cbn [fmap list_fmap concat]. by rewrite <- !app_assoc.
Qed.

(** The forward pass when the vocabulary has the three pieces. *)
Lemma forward_spec (model : Model) (X : list Doc) (is_train : bool)
    (log : list string) (bos_id eos_id unk_id : Z) :
  let bbp := byte_bpe_processor model in
  piece_id bbp (bos_piece model) = Some bos_id →
  piece_id bbp (eos_piece model) = Some eos_id →
  piece_id bbp (unk_piece model) = Some unk_id →
  byte_bpe_encoder_forward model X is_train log
  = (inr (doc_ragged bbp bos_id eos_id <$> X, λ _, []),
     log ++ concat (doc_texts <$> X)).
Proof.
  intros bbp Hbos Heos Hunk. unfold byte_bpe_encoder_forward. cbv zeta.
  fold bbp. rewrite Hbos, Heos, Hunk.
  erewrite mbind_inr by apply encode_docs_spec. reflexivity.
Qed.

Lemma length_texts_from prev (tokens : list Token) :
  length (texts_from prev tokens) = length tokens.
Proof. revert prev. induction tokens; intros; simpl; auto. Qed.

Lemma sum_app (xs ys : list Z) : sum (xs ++ ys) = sum xs + sum ys.
Proof. unfold sum. induction xs as [|x xs IH]; simpl; lia. Qed.

Lemma sum_lengths (xss : list (list Z)) :
  sum ((λ ids, Z.of_nat (length ids)) <$> xss) = Z.of_nat (length (concat xss)).
Proof.
  unfold sum. induction xss as [|xs xss IH]; [done|].
  cbn [fmap list_fmap foldr concat]. rewrite length_app. lia.
Qed.

(** C8 (lines 44-52).  When the vocabulary has no id for the BOS piece, the
    EOS piece or the UNK piece of the model, the forward pass raises a
    [ValueError] and has handed no text to the processor: nothing has been
    encoded.  When the three pieces have ids it returns. *)
Theorem bbpe_forward_raises_on_missing_piece
    (model : Model) (X : list Doc) (is_train : bool) (log : list string) :
  let bbp := byte_bpe_processor model in
  ((piece_id bbp (bos_piece model) = None
    ∨ piece_id bbp (eos_piece model) = None
    ∨ piece_id bbp (unk_piece model) = None) →
   ∃ msg, byte_bpe_encoder_forward model X is_train log
          = (inl (ValueError msg), log))
  ∧ (is_Some (piece_id bbp (bos_piece model)) →
     is_Some (piece_id bbp (eos_piece model)) →
     is_Some (piece_id bbp (unk_piece model)) →
     ∃ out log', byte_bpe_encoder_forward model X is_train log = (inr out, log')).
Proof.
  intros bbp. split.
  - intros Hnone. unfold byte_bpe_encoder_forward. cbv zeta. fold bbp.
    destruct (piece_id bbp (bos_piece model)) as [bos_id|]; [|by eexists].
    destruct (piece_id bbp (eos_piece model)) as [eos_id|]; [|by eexists].
    destruct (piece_id bbp (unk_piece model)) as [unk_id|]; [|by eexists].
    by destruct Hnone as [?|[?|?]].
  - intros [bos_id Hbos] [eos_id Heos] [unk_id Hunk].
    eexists _, _. by apply (forward_spec model X is_train log bos_id eos_id unk_id).
Qed.



End with_cutlery.



End BBPEFacts.

(** ** The decoder stack and its cache *)

Module TransformerFacts.
Import Transformer PythonFacts.

(** *** Lists *)

Lemma visible_cons {A} (x : A) (xs : list A) (b : bool) (m : list bool) :
  visible (x :: xs) (b :: m) = if b then x :: visible xs m else visible xs m.
Proof. by destruct b. Qed.

Lemma visible_causal_from {A} (xs : list A) (p k : nat) :
  visible xs ((λ j, bool_decide (j ≤ p)%nat) <$> seq k (length xs))
  = take (S p - k) xs.
Proof.
  revert k. induction xs as [|x xs IH]; intros k.
  - by rewrite take_nil.
  - cbn [length seq]. rewrite fmap_cons, visible_cons, IH.
    case_bool_decide as Hk.
    + replace (S p - k)%nat with (S (S p - S k)) by lia. done.
    + replace (S p - S k)%nat with 0%nat by lia.
      replace (S p - k)%nat with 0%nat by lia. done.
Qed.

Lemma visible_causal {A} (xs : list A) (p n : nat) :
  n = length xs → visible xs (causal_mask p n) = take (S p) xs.
Proof.
  intros ->. unfold causal_mask. by rewrite visible_causal_from, Nat.sub_0_r.
Qed.

Lemma default_last_zip_app {A} (e1 e2 : list A) (hs1 hs2 : list (list A)) :
  length hs1 = length hs2 →
  default (e1 ++ e2) (last (zip_with app hs1 hs2))
  = default e1 (last hs1) ++ default e2 (last hs2).
Proof.
  revert hs2. induction hs1 as [|h1 hs1 IH]; intros [|h2 hs2] Hlen;
    simplify_eq/=; [done|].
  specialize (IH hs2 ltac:(done)).
  destruct hs1 as [|h1' hs1], hs2 as [|h2' hs2]; simplify_eq/=; [done|].
  exact IH.
Qed.

Lemma repeat_interleave_fmap {A B} (f : A → B) (n : nat) (xs : list A) :
  f <$> repeat_interleave n xs = repeat_interleave n (f <$> xs).
Proof.
  unfold repeat_interleave. induction xs as [|x xs IH]; [done|].
  cbn [mbind list_bind fmap list_fmap].
  change (list_fmap A B f ?l) with (f <$> l).
  rewrite fmap_app, fmap_replicate. f_equal. exact IH.
Qed.

Lemma length_repeat_interleave {A} (n : nat) (xs : list A) :
  length (repeat_interleave n xs) = (length xs * n)%nat.
Proof.
  unfold repeat_interleave. induction xs as [|x xs IH]; [done|].
  cbn [mbind list_bind length]. rewrite length_app, length_replicate.
  change (list_bind A A (replicate n) xs) with (xs ≫= replicate n).
  rewrite IH. lia.
Qed.

Lemma repeat_interleave_lookup {A} (n : nat) (xs : list A) (h : nat) :
  (0 < n)%nat → repeat_interleave n xs !! h = xs !! (h / n)%nat.
Proof.
  intros Hn. unfold repeat_interleave. revert h.
  induction xs as [|x xs IH]; intros h; [by rewrite !lookup_nil|].
  cbn [mbind list_bind].
  change (list_bind A A (replicate n) xs) with (xs ≫= replicate n).
  destruct (decide (h < n)%nat) as [Hlt|Hge].
  - rewrite lookup_app_l by (by rewrite length_replicate).
    rewrite Nat.div_small by done. by apply lookup_replicate_2.
  - rewrite lookup_app_r by (rewrite length_replicate; lia).
    rewrite length_replicate, IH.
    replace h with ((h - n) + 1 * n)%nat at 2 by lia.
    rewrite Nat.div_add by lia. by rewrite Nat.add_1_r.
Qed.

Lemma repeat_interleave_0 {A} (xs : list A) : repeat_interleave 0 xs = [].
Proof. unfold repeat_interleave. by induction xs. Qed.

Lemma repeat_interleave_1 {A} (xs : list A) : repeat_interleave 1 xs = xs.
Proof.
  unfold repeat_interleave. induction xs as [|x xs IH]; [done|].
  cbn [mbind list_bind replicate app]. f_equal. exact IH.
Qed.

(** Weights shared by groups of [n] consecutive heads are the weights of
    the groups, each repeated [n] times. *)
Lemma shared_weights {A} (k q : nat) (ws ws' : list A) :
  (k | q)%nat → length ws = k → length ws' = q →
  (∀ h, (h < q)%nat → ws' !! h = ws !! (h / (q / k))%nat) →
  ws' = repeat_interleave (q / k) ws.
Proof.
  intros [m ->] Hk Hq Hshare.
  destruct (decide (k = 0)%nat) as [->|Hk0].
  { rewrite Nat.mul_0_r in Hq. destruct ws, ws'; simplify_eq/=. done. }
  rewrite Nat.div_mul in * by done.
  apply list_eq. intros h.
  destruct (decide (h < m * k)%nat) as [Hlt|Hge].
  - rewrite Hshare by done. symmetry. apply repeat_interleave_lookup. 
    destruct m; [lia|lia].
  - rewrite !lookup_ge_None_2; [done| |lia].
    rewrite length_repeat_interleave. lia.
Qed.

Section with_kernels.
Context `{Kernels}.

(** *** Attention over a longer key/value sequence *)

(** The keys and values after the position of the query do not matter. *)
Lemma attention_at_app (att : SelfAttention) (kvs extra : list KeyValue)
    (p : nat) (q : list Head) :
  (p < length kvs)%nat →
  attention_at att (kvs ++ extra) p q = attention_at att kvs p q.
Proof.
  intros Hp. unfold attention_at.
  rewrite !visible_causal by (by rewrite length_fmap).
  rewrite fmap_app, take_app_le by (rewrite length_fmap; lia). done.
Qed.

Lemma length_self_attention att xs c st :
  length (self_attention att xs c st).1 = length xs.
Proof. unfold self_attention. cbn [fst]. by rewrite length_imap. Qed.

(** Attention over [xs1 ++ xs2] is attention over [xs1], then attention
    over [xs2] on the cache the first call returns. *)
Lemma self_attention_app (att : SelfAttention) (xs1 xs2 : list Hidden)
    (c : option KeyValueCache) (st : bool) :
  let r1 := self_attention att xs1 c true in
  let r2 := self_attention att xs2 r1.2 st in
  self_attention att (xs1 ++ xs2) c st = (r1.1 ++ r2.1, r2.2).
Proof.
  unfold self_attention. cbn [fst snd from_option id].
  set (prior := default [] c). set (off := length prior).
  set (new1 := imap (λ i x, new_key_value att (off + i) x) xs1).
  assert (Hlen1 : length (prior ++ new1) = (off + length xs1)%nat).
  { subst new1. by rewrite length_app, length_imap. }
  rewrite Hlen1.
  assert (Hnew : imap (λ i x, new_key_value att (off + i) x) (xs1 ++ xs2)
                 = new1 ++ imap (λ i x, new_key_value att (off + length xs1 + i) x) xs2).
  { rewrite imap_app. f_equal. apply imap_ext. intros i x _. simpl. f_equal. lia. }
  rewrite Hnew, !app_assoc. f_equal.
  rewrite imap_app. f_equal.
  - apply imap_ext. intros i x Hi. apply lookup_lt_Some in Hi.
    rewrite <- (app_assoc prior new1), (app_assoc prior new1). cbn beta.
    apply attention_at_app. lia.
  - apply imap_ext. intros i x _. cbn beta. unfold compose.
    by rewrite !Nat.add_assoc.
Qed.

Lemma self_attention_store att xs c :
  (self_attention att xs c true).2
  = Some (default [] c ++ imap (λ i x, new_key_value att (length (default [] c) + i) x) xs).
Proof. reflexivity. Qed.

(** *** Layers *)

Lemma decoder_layer_eq (l : DecoderLayer) xs c st :
  decoder_layer l xs c st
  = let normed := layer_norm (attn_input_layer_norm l) <$> xs in
    let r := self_attention (attention_layer l) normed c st in
    (if use_parallel_attention l then
       zip_with add xs
         (zip_with add r.1 (feed_forward (feed_forward_layer l) <$> normed))
     else
       (λ y, add y (feed_forward (feed_forward_layer l)
                      (layer_norm (ffn_input_layer_norm l) y)))
         <$> zip_with add xs r.1,
     r.2).
Proof. unfold decoder_layer. cbv zeta. by destruct (self_attention _ _ _ _). Qed.

Lemma length_decoder_layer l xs c st :
  length (decoder_layer l xs c st).1 = length xs.
Proof.
  rewrite decoder_layer_eq. cbv zeta. cbn [fst].
  destruct (use_parallel_attention l).
  - rewrite !length_zip_with, length_self_attention, !length_fmap. lia.
  - rewrite length_fmap, length_zip_with, length_self_attention, length_fmap. lia.
Qed.

Lemma decoder_layer_app (l : DecoderLayer) (xs1 xs2 : list Hidden)
    (c : option KeyValueCache) (st : bool) :
  let r1 := decoder_layer l xs1 c true in
  let r2 := decoder_layer l xs2 r1.2 st in
  decoder_layer l (xs1 ++ xs2) c st = (r1.1 ++ r2.1, r2.2).
Proof.
  cbv zeta. rewrite !decoder_layer_eq. cbv zeta. cbn [fst snd].
  rewrite fmap_app, self_attention_app. cbv zeta. cbn [fst snd].
  f_equal. destruct (use_parallel_attention l).
  - rewrite <- !zip_with_app.
    + by rewrite fmap_app.
    + by rewrite length_self_attention, !length_fmap.
    + rewrite length_zip_with, length_self_attention, !length_fmap. lia.
  - rewrite <- fmap_app, <- zip_with_app; [done|].
    by rewrite length_self_attention, length_fmap.
Qed.

Lemma decoder_layer_store l xs c :
  ∃ kvs, (decoder_layer l xs c true).2 = Some kvs.
Proof. rewrite decoder_layer_eq. cbv zeta. cbn [snd]. by eexists. Qed.

(** *** The stack *)

Lemma run_layers_cons l ls xs c st :
  run_layers (l :: ls) xs c st
  = let r := decoder_layer l xs (c ≫= head) st in
    let rs := run_layers ls r.1 (tail <$> c) st in
    (r.1 :: rs.1, r.2 :: rs.2).
Proof.
  cbn [run_layers]. cbv zeta. destruct (decoder_layer _ _ _ _) as [out nc].
  cbn [fst snd]. by destruct (run_layers _ _ _ _).
Qed.

Lemma run_layers_lengths ls xs c st :
  length (run_layers ls xs c st).1 = length ls
  ∧ Forall (λ h, length h = length xs) (run_layers ls xs c st).1.
Proof.
  revert xs c. induction ls as [|l ls IH]; intros xs c; [by split|].
  rewrite run_layers_cons. cbv zeta. cbn [fst length].
  destruct (IH (decoder_layer l xs (c ≫= head) st).1 (tail <$> c)) as [Hlen Hall].
  split; [by rewrite Hlen|]. constructor; [apply length_decoder_layer|].
  eapply Forall_impl; [exact Hall|]. intros h ->. apply length_decoder_layer.
Qed.

(** Running the stack over [xs1 ++ xs2] is running it over [xs1] with the
    cache stored, then over [xs2] on that cache. *)
Lemma run_layers_app (ls : list DecoderLayer) (xs1 xs2 : list Hidden)
    (c : option (list KeyValueCache)) (st : bool) :
  let r1 := run_layers ls xs1 c true in
  let r2 := run_layers ls xs2 (Some (omap id r1.2)) st in
  run_layers ls (xs1 ++ xs2) c st = (zip_with app r1.1 r2.1, r2.2).
Proof.
  revert xs1 xs2 c. induction ls as [|l ls IH]; intros xs1 xs2 c; [done|].
  cbv zeta. rewrite !run_layers_cons. cbv zeta. cbn [fst snd].
  rewrite decoder_layer_app. cbv zeta. cbn [fst snd].
  destruct (decoder_layer_store l xs1 (c ≫= head)) as [kvs Hkvs].
  rewrite Hkvs. cbn [omap id mbind option_bind head fmap option_fmap option_map tail].
  rewrite IH. cbv zeta. cbn [fst snd zip_with]. done.
Qed.

(** C1.  For a token sequence split into a prefix and a suffix, the hidden
    states the decoder computes for the positions of the suffix when it
    runs once over the whole sequence are the hidden states it computes
    when it runs over the prefix with the cache stored and then over the
    suffix with that cache: for every layer, and for the final normalized
    output.  The kernels are exact, so the two are equal and lie within
    any tolerance. *)
Theorem decoder_incremental_equals_full
    (dec : TransformerDecoder) (prefix suffix : list Z) :
  let full := forward dec (prefix ++ suffix) None false in
  let first := forward dec prefix None true in
  let second := forward dec suffix (cache first) false in
  drop (length prefix) (last_hidden_layer_states full)
  = last_hidden_layer_states second
  ∧ drop (length prefix) <$> layer_hidden_states full
    = layer_hidden_states second.
Proof.
  cbv zeta. unfold forward. rewrite fmap_app, run_layers_app. cbv zeta.
  set (emb1 := embed (embeddings dec) <$> prefix).
  set (emb2 := embed (embeddings dec) <$> suffix).
  destruct (run_layers_lengths (layers dec) emb1 None true) as [Hlen1 Hall1].
  destruct (run_layers (layers dec) emb1 None true) as [hs1 cs1] eqn:Hr1.
  cbn [fst snd cache] in *.
  destruct (run_layers_lengths (layers dec) emb2 (Some (omap id cs1)) false)
    as [Hlen2 _].
  destruct (run_layers (layers dec) emb2 (Some (omap id cs1)) false) as [hs2 cs2].
  cbn [fst snd last_hidden_layer_states layer_hidden_states] in *.
  assert (Hemb1 : length emb1 = length prefix) by (subst emb1; by rewrite length_fmap).
  split.
  - rewrite default_last_zip_app by congruence.
    rewrite fmap_app, drop_app_length'; [done|].
    rewrite length_fmap. destruct (last hs1) as [h|] eqn:Hlast; [|done].
    assert (Hh : length h = length emb1).
    { apply (proj1 (Forall_forall _ _) Hall1). by apply last_Some_elem_of. }
    simpl. congruence.
  - clear Hr1. revert hs2 Hlen2. rewrite <- Hlen1. clear Hlen1.
    induction Hall1 as [|h1 hs1 Hh1 _ IH]; intros [|h2 hs2] Hlen2;
      simplify_eq/=; [done|].
    f_equal; [|by apply IH].
    rewrite drop_app_length'; [done|congruence].
Qed.

(** *** Grouped attention *)

Lemma rotate_heads_repeat rot p n (hs : list Head) :
  rotate_heads rot p (repeat_interleave n hs)
  = repeat_interleave n (rotate_heads rot p hs).
Proof. destruct rot; [apply repeat_interleave_fmap|done]. Qed.

(** With the weights of the groups repeated, the ungrouped attention
    projects a position to the broadcast of what the grouped one projects
    it to. *)
Lemma new_key_value_ungrouped (att : SelfAttention) (p : nat) (x : Hidden) :
  let n := broadcast_factor (attention_heads att) in
  new_key_value
    (ungrouped att (repeat_interleave n (key_weights att))
                   (repeat_interleave n (value_weights att))) p x
  = broadcast (attention_heads att) (new_key_value att p x).
Proof.
  unfold new_key_value, broadcast, ungrouped, project_heads.
  cbn [key value key_weights value_weights rotary_embeds].
  by rewrite !repeat_interleave_fmap, rotate_heads_repeat.
Qed.

(** Broadcasting what is already broadcast changes nothing. *)
Lemma broadcast_ungrouped (att : SelfAttention) wk wv (kv : KeyValue) :
  broadcast (attention_heads (ungrouped att wk wv))
            (broadcast (attention_heads att) kv)
  = broadcast (attention_heads att) kv.
Proof.
  unfold broadcast at 1. unfold broadcast_factor, ungrouped.
  cbn [attention_heads n_query_heads n_key_value_heads].
  set (q := n_query_heads (attention_heads att)).
  destruct (decide (q = 0)%nat) as [Hq|Hq].
  - unfold broadcast, broadcast_factor. fold q. rewrite Hq. cbn [key value].
    change (0 / 0)%nat with 0%nat.
    replace (0 / n_key_value_heads (attention_heads att))%nat with 0%nat
      by (by destruct (n_key_value_heads (attention_heads att))).
    by rewrite !repeat_interleave_0.
  - rewrite Nat.div_same by done. rewrite !repeat_interleave_1.
    by destruct (broadcast (attention_heads att) kv).
Qed.

(** C6.  For an attention with [Q] query heads and [K] key/value heads, [K]
    dividing [Q], and an ungrouped attention with [Q] heads whose key and
    value weights are shared by every group of [Q/K] consecutive heads
    (head [h] has the weights of group [h / (Q/K)]): the ungrouped
    attention returns the same output as the grouped one, which broadcasts
    its [K] key/value heads to [Q] before scoring, and the cache it returns
    is the broadcast of the grouped one's. *)
Theorem grouped_attention_equals_ungrouped_sharing_weights
    (att : SelfAttention) (wk wv : list Weights) (xs : list Hidden)
    (c : option KeyValueCache) (st : bool) :
  let Q := n_query_heads (attention_heads att) in
  let K := n_key_value_heads (attention_heads att) in
  (K | Q)%nat →
  length (key_weights att) = K →
  length (value_weights att) = K →
  length wk = Q →
  length wv = Q →
  (∀ h, (h < Q)%nat → wk !! h = key_weights att !! (h / (Q / K))%nat) →
  (∀ h, (h < Q)%nat → wv !! h = value_weights att !! (h / (Q / K))%nat) →
  self_attention (ungrouped att wk wv) xs
    (broadcast_cache (attention_heads att) <$> c) st
  = ((self_attention att xs c st).1,
     broadcast_cache (attention_heads att) <$> (self_attention att xs c st).2).
Proof.
  intros Q K Hdiv Hk Hv Hwk Hwv Hsk Hsv.
  rewrite (shared_weights K Q (key_weights att) wk Hdiv Hk Hwk Hsk).
  rewrite (shared_weights K Q (value_weights att) wv Hdiv Hv Hwv Hsv).
  change (Q / K)%nat with (broadcast_factor (attention_heads att)).
  set (n := broadcast_factor (attention_heads att)).
  set (att' := ungrouped att _ _).
  unfold self_attention. cbn [fst snd].
  set (prior := default [] c).
  assert (Hprior : default [] (broadcast_cache (attention_heads att) <$> c)
                   = broadcast (attention_heads att) <$> prior).
  { subst prior. by destruct c. }
  rewrite Hprior, length_fmap.
  set (off := length prior).
  set (kvs := prior ++ imap (λ i x, new_key_value att (off + i) x) xs).
  assert (Hkvs : (broadcast (attention_heads att) <$> prior)
                 ++ imap (λ i x, new_key_value att' (off + i) x) xs
                 = broadcast (attention_heads att) <$> kvs).
  { subst kvs. rewrite fmap_app. f_equal. rewrite fmap_imap.
    apply imap_ext. intros i x _. apply new_key_value_ungrouped. }
  rewrite Hkvs. f_equal; [|by destruct st].
  apply imap_ext. intros i x _. cbn beta. unfold attention_at.
  rewrite length_fmap, <- list_fmap_compose.
  assert (Hb : broadcast (attention_heads att') ∘ broadcast (attention_heads att) <$> kvs
               = broadcast (attention_heads att) <$> kvs).
  { apply list_fmap_ext. intros j kv _. apply broadcast_ungrouped. }
  rewrite Hb. reflexivity.
Qed.

(** *** Caches held by the caller *)

(** With the cache stored, every layer returns its prior entry with one
    new position per input position appended. *)
Lemma run_layers_store (ls : list DecoderLayer) (xs : list Hidden)
    (c : option (list KeyValueCache)) :
  ∃ cs : list KeyValueCache,
    (run_layers ls xs c true).2 = Some <$> cs
    ∧ length cs = length ls
    ∧ ∀ i new, cs !! i = Some new →
        ∃ ext : list KeyValue,
          new = default [] (c ≫= (.!! i)) ++ ext ∧ length ext = length xs.
Proof.
  revert xs c. induction ls as [|l ls IH]; intros xs c.
  - exists []. repeat split. intros i new Hi. by rewrite lookup_nil in Hi.
  - rewrite run_layers_cons. cbv zeta. cbn [snd].
    destruct (IH (decoder_layer l xs (c ≫= head) true).1 (tail <$> c))
      as (cs & -> & Hlen & Hcs).
    rewrite decoder_layer_eq. cbv zeta. cbn [fst snd]. rewrite self_attention_store.
    eexists (_ :: cs). split; [reflexivity|]. split; [by cbn [length]; rewrite Hlen|].
    intros [|i] new Hi; simplify_eq/=.
    + eexists. split.
      * f_equal. by destruct c as [[|? ?]|].
      * by rewrite length_imap, length_fmap.
    + destruct (Hcs i new Hi) as (ext & -> & Hext). exists ext. split.
      * f_equal. by destruct c as [[|? ?]|].
      * rewrite Hext. rewrite <- (length_decoder_layer l xs (c ≫= head) true).
        by rewrite decoder_layer_eq.
Qed.

Lemma omap_id_Some {A} (xs : list A) : omap id (Some <$> xs) = xs.
Proof. induction xs as [|x xs IH]; [done|]. simpl. f_equal. exact IH. Qed.

(** Reading the prior entries leaves the store as it is. *)
Lemma deref_all_spec (refs : list nat) (acc : list KeyValueCache) (s : store) :
  for_in refs (λ acc r, c ← deref r; mret (acc ++ [c])) acc s
  = (inr (acc ++ ((λ r, default [] (objects s !! r)) <$> refs)), s).
Proof.
  revert acc. induction refs as [|r refs IH]; intros acc.
  - simpl. by rewrite app_nil_r.
  - cbn [for_in].
    rewrite (bind_inr _ _ s (acc ++ [default [] (objects s !! r)]) s) by reflexivity.
    rewrite IH, <- app_assoc. reflexivity.
Qed.

(** Allocating the new entries touches no object that exists. *)
Lemma alloc_all_spec (cs : list KeyValueCache) (acc : list nat) (s : store) :
  (∀ r, is_Some (objects s !! r) → (r < next_ref s)%nat) →
  ∃ s',
    for_in cs (λ acc c, r ← alloc c; mret (acc ++ [r])) acc s
    = (inr (acc ++ seq (next_ref s) (length cs)), s')
    ∧ next_ref s' = (next_ref s + length cs)%nat
    ∧ (∀ r, (r < next_ref s)%nat → objects s' !! r = objects s !! r)
    ∧ (∀ i, (i < length cs)%nat → objects s' !! (next_ref s + i)%nat = cs !! i)
    ∧ (∀ r, is_Some (objects s' !! r) → (r < next_ref s')%nat).
Proof.
  revert acc s. induction cs as [|c cs IH]; intros acc s Hwf.
  - exists s. cbn [for_in length seq]. rewrite app_nil_r, Nat.add_0_r.
    split; [done|]. split; [done|]. split; [done|]. split; [|done].
    intros i Hi. lia.
  - cbn [for_in].
    set (s1 := {| objects := <[next_ref s := c]> (objects s);
                  next_ref := S (next_ref s) |}).
    rewrite (bind_inr _ _ s (acc ++ [next_ref s]) s1) by reflexivity.
    destruct (IH (acc ++ [next_ref s]) s1) as (s' & -> & Hnext & Hold & Hnew & Hwf').
    { intros r. subst s1. cbn [objects next_ref]. intros [x Hx].
      destruct (decide (r = next_ref s)) as [->|Hne]; [lia|].
      rewrite lookup_insert_ne in Hx by done.
      assert (r < next_ref s)%nat by eauto. lia. }
    exists s'. subst s1. cbn [objects next_ref length seq] in *.
    rewrite <- app_assoc. split; [done|]. split; [lia|]. split; [|split; [|done]].
    + intros r Hr. rewrite Hold by lia. by rewrite lookup_insert_ne by lia.
    + intros [|i] Hi.
      * rewrite Nat.add_0_r, Hold by lia. by rewrite lookup_insert_eq.
      * replace (next_ref s + S i)%nat with (S (next_ref s) + i)%nat by lia.
        apply Hnew. lia.
Qed.

(** A call by reference computes what the decoder computes on the entries
    behind the references. *)
Lemma forward_ref_spec (dec : TransformerDecoder) (input_ids : list Z)
    (cache : option (list nat)) (st : bool) (s : store) :
  (∀ r, is_Some (objects s !! r) → (r < next_ref s)%nat) →
  let out := forward dec input_ids (prior_of s cache) st in
  ∃ s',
    forward_ref dec input_ids cache st s
    = (inr {| hidden_states := layer_hidden_states out;
              last_hidden := last_hidden_layer_states out;
              cache_refs :=
                (λ cs, seq (next_ref s) (length cs)) <$> Transformer.cache out |},
       s')
    ∧ (∀ r, (r < next_ref s)%nat → objects s' !! r = objects s !! r)
    ∧ (∀ cs i, Transformer.cache out = Some cs → (i < length cs)%nat →
         objects s' !! (next_ref s + i)%nat = cs !! i)
    ∧ (∀ r, is_Some (objects s' !! r) → (r < next_ref s')%nat).
Proof.
  intros Hwf out. unfold forward_ref.
  assert (Hprior : ∀ B (k : option (list KeyValueCache) → Py store B),
    (match cache with
     | None => mret None
     | Some refs =>
         cs ← for_in refs (λ acc r, c ← deref r; mret (acc ++ [c])) [];
         mret (Some cs)
     end ≫= k) s = k (prior_of s cache) s).
  { intros B k. destruct cache as [refs|]; [|reflexivity].
    apply mbind_inr. erewrite mbind_inr by apply deref_all_spec. reflexivity. }
  rewrite Hprior. cbv zeta. fold out.
  destruct (Transformer.cache out) as [cs|] eqn:Hcache.
  - destruct (alloc_all_spec cs [] s Hwf) as (s' & Hrun & Hnext & Hold & Hnew & Hwf').
    exists s'. split; [|split; [done|split; [|done]]].
    + erewrite mbind_inr; [reflexivity|].
      erewrite mbind_inr by exact Hrun. reflexivity.
    + intros cs' i Hcs' Hi. simplify_eq. by apply Hnew.
  - exists s. split; [reflexivity|]. split; [done|]. split; [|done].
    intros cs' i Hcs'. done.
Qed.


End with_kernels.

(** The toy decoder on [1; 2 | 3; 4]: the second call, on the cache of the
    first, returns the last two positions of the run over all four. *)
Example toy_decoder_incremental :
  last_hidden_layer_states
    (@forward toy_kernels toy_decoder [3; 4]
       (cache (@forward toy_kernels toy_decoder [1; 2] None true)) false)
  = drop 2 (last_hidden_layer_states
              (@forward toy_kernels toy_decoder [1; 2; 3; 4] None false)).
Proof. vm_compute. reflexivity. Qed.

(** Four query heads over two key/value heads, against four heads whose
    weights are shared two by two. *)
Lemma grouped_attention_equals_ungrouped_sharing_weights_witness :
  (@self_attention toy_kernels
     (ungrouped (toy_attention 4 2 [2; 3] [1; -1]) [2; 2; 3; 3] [1; 1; -1; -1])
     [1; 2; 3] None false).1
  = (@self_attention toy_kernels (toy_attention 4 2 [2; 3] [1; -1])
       [1; 2; 3] None false).1.
Proof.
  refine (f_equal fst
            (@grouped_attention_equals_ungrouped_sharing_weights toy_kernels
               (toy_attention 4 2 [2; 3] [1; -1]) [2; 2; 3; 3] [1; 1; -1; -1]
               [1; 2; 3] None false _ eq_refl eq_refl eq_refl eq_refl _ _)).
  - exists 2%nat. reflexivity.
  - intros [|[|[|[|h]]]] Hh; simpl in Hh; [reflexivity..|lia].
  - intros [|[|[|[|h]]]] Hh; simpl in Hh; [reflexivity..|lia].
Defined.

(** Weights shared every other head instead are another attention. *)
Example interleaved_sharing_differs :
  (@self_attention toy_kernels
     (ungrouped (toy_attention 4 2 [2; 3] [1; -1]) [2; 3; 2; 3] [1; -1; 1; -1])
     [1; 2; 3] None false).1
  ≠ (@self_attention toy_kernels (toy_attention 4 2 [2; 3] [1; -1])
       [1; 2; 3] None false).1.
Proof. vm_compute. discriminate. Qed.


End TransformerFacts.

(** ** ALBERT encoder: outside the valid configurations, and composition *)

Module AlbertExtra.
Import Albert PythonFacts AlbertFacts.

Section with_submodules.
Context `{Submodules}.

(** The constructor on a configuration that passes the divisibility test:
    the embeddings get the first free identity, the groups the ones after
    it. *)
Lemma albert_init_spec (config : AlbertConfig) (w : world) :
  let L := num_hidden_layers (layer config) in
  let G := num_hidden_groups (layer config) in
  G ≠ 0 → L `mod` G = 0 →
  ∃ gs,
    AlbertEncoder_init config w
    = (inr {| self_padding_id := padding_id config;
              self_max_seq_len := model_max_length config;
              self_num_hidden_layers := L;
              self_embeddings :=
                {| emb_oid := next_id w;
                   emb_params := embeddings_params (embedding config)
                                   (layer config) (next_id w) |};
              self_groups := gs |},
       World (S (next_id w) + Z.to_nat G)%nat
             ((events w ++ [Built "BertEmbeddings" (next_id w)])
              ++ (Built "AlbertLayerGroup" <$> seq (S (next_id w)) (Z.to_nat G))))
    ∧ grp_oid <$> gs = seq (S (next_id w)) (Z.to_nat G).
Proof.
  intros L G HG HLG.
  assert (Hmod : py_mod L G = inr (L `mod` G)).
  { unfold py_mod. by rewrite decide_False by done. }
  unfold AlbertEncoder_init. cbv zeta. fold L G. rewrite Hmod.
  erewrite mbind_inr by reflexivity. rewrite decide_False by (intros ?; done).
  set (e := {| emb_oid := next_id w;
               emb_params := embeddings_params (embedding config) (layer config)
                               (next_id w) |}).
  set (w1 := World (S (next_id w)) (events w ++ [Built "BertEmbeddings" (next_id w)])).
  rewrite (mbind_inr _ _ w e w1) by reflexivity.
  destruct (build_groups_spec (layer config) (attention config) (range G) [] w1)
    as (gs & Hgs & Hoid).
  erewrite mbind_inr by exact Hgs.
  rewrite length_range in Hoid. exists gs. split; [|exact Hoid].
  rewrite length_range. reflexivity.
Qed.

(** X1 (constructor, lines 27-35).  Outside [G > 0] the divisibility test
    does not give a configuration error: with [G = 0] the [%] raises
    [ZeroDivisionError], and nothing has been built; with [G < 0] dividing
    [L] the constructor returns an encoder without any layer group. *)
Theorem albert_init_nonpositive_groups (config : AlbertConfig) (w : world) :
  let L := num_hidden_layers (layer config) in
  let G := num_hidden_groups (layer config) in
  (G = 0 → AlbertEncoder_init config w = (inl ZeroDivisionError, w))
  ∧ (G < 0 → L `mod` G = 0 →
     ∃ enc w', AlbertEncoder_init config w = (inr enc, w')
               ∧ self_groups enc = []
               ∧ events w' = events w ++ [Built "BertEmbeddings" (next_id w)]).
Proof.
  intros L G. split.
  - intros HG. unfold AlbertEncoder_init. cbv zeta. fold L G.
    unfold py_mod. rewrite decide_True by done. reflexivity.
  - intros HG HLG.
    destruct (albert_init_spec config w ltac:(fold G; lia) HLG) as (gs & Hrun & Hoid).
    fold G in Hrun, Hoid. replace (Z.to_nat G) with 0%nat in * by lia.
    eexists _, _. split; [exact Hrun|]. cbn [self_groups events seq fmap list_fmap].
    split; [|by rewrite app_nil_r]. by destruct gs.
Qed.

(** X2 (forward, line 66).  An encoder without layer groups cannot run:
    the forward pass calls the embeddings and then raises
    [ZeroDivisionError] on [num_hidden_layers // len(groups)]; this is what
    happens to every encoder built with a negative group count. *)
Theorem albert_forward_without_groups
    (config : AlbertConfig) (w : world) (input_ids : list (list Z))
    (attention_mask : option AttentionMask)
    (token_type_ids : option (list (list Z))) :
  num_hidden_groups (layer config) < 0 →
  num_hidden_layers (layer config) `mod` num_hidden_groups (layer config) = 0 →
  ∃ enc w',
    AlbertEncoder_init config w = (inr enc, w')
    ∧ forward enc input_ids attention_mask token_type_ids w'
      = (inl ZeroDivisionError,
         World (next_id w') (events w' ++ [Called (emb_oid (self_embeddings enc))])).
Proof.
  intros HG HLG.
  destruct (albert_init_spec config w ltac:(lia) HLG) as (gs & Hrun & Hoid).
  replace (Z.to_nat (num_hidden_groups (layer config))) with 0%nat in * by lia.
  destruct gs; [|done].
  eexists _, _. split; [exact Hrun|].
  unfold forward. cbv zeta. cbn [self_groups self_embeddings length].
  erewrite mbind_inr by apply call_embeddings_eq. reflexivity.
Qed.

(** X3 (constructor, lines 37-45).  The modules of a constructed encoder are
    objects of their own: the identities of the embeddings and of the layer
    groups are pairwise distinct, and they are the identities the
    constructor allocated, none of them in use before. *)
Theorem albert_init_modules_distinct (config : AlbertConfig) (w : world) :
  let L := num_hidden_layers (layer config) in
  let G := num_hidden_groups (layer config) in
  G ≠ 0 → L `mod` G = 0 →
  ∃ enc w',
    AlbertEncoder_init config w = (inr enc, w')
    ∧ NoDup (emb_oid (self_embeddings enc) :: (grp_oid <$> self_groups enc))
    ∧ ∀ oid, oid ∈ emb_oid (self_embeddings enc) :: (grp_oid <$> self_groups enc) →
        (next_id w ≤ oid < next_id w')%nat.
Proof.
  intros L G HG HLG.
  destruct (albert_init_spec config w HG HLG) as (gs & Hrun & Hoid).
  eexists _, _. split; [exact Hrun|].
  cbn [self_embeddings self_groups emb_oid next_id]. rewrite Hoid.
  change (next_id w :: seq (S (next_id w)) ?n) with (seq (next_id w) (S n)).
  split; [apply NoDup_seq|].
  intros oid Hin. apply elem_of_seq in Hin. lia.
Qed.

(** X5 (forward, lines 60-76).  For every encoder with at least one group,
    whatever its layer count, the forward pass returns; it builds no
    module; it calls the embeddings once and then every group
    [max 0 (L // G)] times in a row, group after group; and the hidden
    states it returns are the outputs of these calls, each on the output of
    the call before it and on the mask in use, so there are
    [G * max 0 (L // G)] of them. *)
Theorem albert_forward_runs_whole_groups
    (self : AlbertEncoder) (input_ids : list (list Z))
    (attention_mask : option AttentionMask)
    (token_type_ids : option (list (list Z))) (w : world) :
  let G := length (self_groups self) in
  let n := Z.to_nat (self_num_hidden_layers self `div` Z.of_nat G) in
  let m := match attention_mask with
           | None => _create_attention_mask self input_ids
           | Some m => m
           end in
  (0 < G)%nat →
  ∃ out w',
    forward self input_ids attention_mask token_type_ids w = (inr out, w')
    ∧ next_id w' = next_id w
    ∧ events w'
      = events w ++ Called (emb_oid (self_embeddings self))
                    :: (Called ∘ grp_oid <$> position_groups (self_groups self) n)
    ∧ embedding_output out
      = embeddings_call (emb_params (self_embeddings self)) input_ids
          token_type_ids None
    ∧ layer_hidden_states out
      = chain (position_groups (self_groups self) n) m (embedding_output out)
    ∧ length (layer_hidden_states out) = (G * n)%nat.
Proof.
  intros G n m HG. unfold forward. cbv zeta. fold m.
  assert (Hdiv : py_floordiv (self_num_hidden_layers self) (Z.of_nat G)
                 = inr (self_num_hidden_layers self `div` Z.of_nat G)).
  { unfold py_floordiv. by rewrite decide_False by lia. }
  fold G. rewrite Hdiv.
  erewrite mbind_inr by apply call_embeddings_eq.
  erewrite mbind_inr by reflexivity.
  erewrite mbind_inr by apply forward_layers_spec.
  eexists _, _. split; [reflexivity|].
  cbn [next_id events layer_hidden_states embedding_output snd app].
  split; [done|]. split; [by rewrite <- app_assoc|].
  split; [done|]. split; [done|].
  by rewrite length_chain, length_position_groups.
Qed.

(** X4 (constructor and forward).  Constructing an encoder from a
    configuration with [G > 0] groups and [L >= 0] layers, [G] dividing
    [L], and running it returns exactly [L] hidden states, after one call
    of the embeddings and [L] calls of layer groups, every one of them a
    group the constructor built. *)
Theorem albert_init_then_forward
    (config : AlbertConfig) (w : world) (input_ids : list (list Z))
    (attention_mask : option AttentionMask)
    (token_type_ids : option (list (list Z))) :
  let L := num_hidden_layers (layer config) in
  let G := num_hidden_groups (layer config) in
  0 < G → 0 ≤ L → L `mod` G = 0 →
  ∃ enc w1 out w2,
    AlbertEncoder_init config w = (inr enc, w1)
    ∧ forward enc input_ids attention_mask token_type_ids w1 = (inr out, w2)
    ∧ Z.of_nat (length (layer_hidden_states out)) = L
    ∧ ∃ called,
        calls_of (events w2)
        = calls_of (events w) ++ emb_oid (self_embeddings enc) :: called
        ∧ Z.of_nat (length called) = L
        ∧ ∀ oid, oid ∈ called → oid ∈ built_of "AlbertLayerGroup" (events w1).
Proof.
  intros L G HG HL HLG.
  destruct (albert_init_spec config w ltac:(fold G; lia) HLG) as (gs & Hrun & Hoid).
  fold L G in Hrun, Hoid.
  eexists _, _. eexists. eexists. split; [exact Hrun|].
  assert (Hlen : length gs = Z.to_nat G).
  { apply (f_equal length) in Hoid. by rewrite length_fmap, length_seq in Hoid. }
  unfold forward. cbv zeta. cbn [self_groups self_num_hidden_layers self_embeddings].
  assert (Hdiv : py_floordiv L (Z.of_nat (length gs)) = inr (L `div` G)).
  { unfold py_floordiv. rewrite decide_False by lia. do 2 f_equal. lia. }
  rewrite Hdiv.
  erewrite mbind_inr by apply call_embeddings_eq.
  erewrite mbind_inr by reflexivity.
  erewrite mbind_inr by apply forward_layers_spec.
  split; [reflexivity|]. cbn [layer_hidden_states snd app events next_id emb_oid].
  set (n := Z.to_nat (L `div` G)).
  assert (Hcount : Z.of_nat (length (position_groups gs n)) = L).
  { rewrite length_position_groups, Hlen. subst n.
    rewrite Nat2Z.inj_mul, !Z2Nat.id by (try apply Z.div_pos; lia).
    symmetry. apply Z.div_exact; lia. }
  split; [by rewrite length_chain|].
  exists (grp_oid <$> position_groups gs n). split; [|split].
  - rewrite !calls_of_app, calls_of_called, <- !app_assoc.
    assert (Hnone : calls_of (Built "AlbertLayerGroup" <$> seq (S (next_id w)) (Z.to_nat G))
                    = []).
    { generalize (seq (S (next_id w)) (Z.to_nat G)). intros l. by induction l. }
    rewrite Hnone. reflexivity.
  - by rewrite length_fmap.
  - intros oid Hin. rewrite !built_of_app, built_of_built.
    apply elem_of_app. right. rewrite <- Hoid.
    apply list_elem_of_fmap in Hin as (g & -> & Hg).
    apply list_elem_of_fmap. exists g. split; [done|].
    unfold position_groups in Hg. apply list_elem_of_bind in Hg as (g' & Hg & Hg').
    apply elem_of_replicate in Hg as [-> _]. done.
Qed.

End with_submodules.

Lemma albert_forward_without_groups_witness :
  ∃ enc w',
    @AlbertEncoder_init _ toy_submodules (toy_config (-4) (-2)) (World 0 [])
    = (inr enc, w')
    ∧ @forward _ toy_submodules enc [[1; 2; 0]] None None w'
      = (inl ZeroDivisionError,
         World (next_id w') (events w' ++ [Called (emb_oid (self_embeddings enc))])).
Proof.
  apply (@albert_forward_without_groups _ toy_submodules (toy_config (-4) (-2))
           (World 0 []) [[1; 2; 0]] None None); [simpl; lia | reflexivity].
Defined.

Lemma albert_init_modules_distinct_witness :
  ∃ enc w',
    @AlbertEncoder_init _ toy_submodules (toy_config 4 2) (World 0 []) = (inr enc, w')
    ∧ NoDup (emb_oid (self_embeddings enc) :: (grp_oid <$> self_groups enc)).
Proof.
  destruct (@albert_init_modules_distinct _ toy_submodules (toy_config 4 2)
              (World 0 [])) as (enc & w' & Hrun & Hnodup & _);
    [simpl; lia | reflexivity |].
  exists enc, w'. split; [exact Hrun | exact Hnodup].
Defined.

Lemma albert_init_then_forward_witness :
  ∃ enc w1 out w2,
    @AlbertEncoder_init _ toy_submodules (toy_config 4 2) (World 0 []) = (inr enc, w1)
    ∧ @forward _ toy_submodules enc [[1; 2; 0]] None None w1 = (inr out, w2)
    ∧ Z.of_nat (length (layer_hidden_states out)) = 4.
Proof.
  destruct (@albert_init_then_forward _ toy_submodules (toy_config 4 2) (World 0 [])
              [[1; 2; 0]] None None)
    as (enc & w1 & out & w2 & Hinit & Hrun & Hlen & _);
    [simpl; lia | simpl; lia | reflexivity |].
  exists enc, w1, out, w2. split; [exact Hinit|]. split; [exact Hrun | exact Hlen].
Defined.

Lemma albert_forward_runs_whole_groups_witness :
  ∃ out w',
    @forward _ toy_submodules toy_encoder [[1; 2; 0]] None None (World 3 [])
    = (inr out, w')
    ∧ length (layer_hidden_states out) = 4%nat.
Proof.
  destruct (@albert_forward_runs_whole_groups _ toy_submodules toy_encoder
              [[1; 2; 0]] None None (World 3 []))
    as (out & w' & Hrun & _ & _ & _ & _ & Hlen); [simpl; lia|].
  exists out, w'. split; [exact Hrun | exact Hlen].
Defined.

End AlbertExtra.

(** ** Llama decoder: the layers the constructor builds *)

Module LlamaExtra.
Import Llama LlamaLayers PythonFacts LlamaFacts.

Section with_opaque.
Context `{Opaque}.

Lemma DecoderLayer_new_spec (config : LlamaConfig) rotary heads device (w : world) :
  n_query_heads (attention (layer config)) ≠ 0 →
  DecoderLayer_new config rotary heads device w
  = (inr (layer_at config rotary heads device (next_id w)),
     World (next_id w + 9) (events w ++ layer_events (next_id w))).
Proof.
  intros Hq. unfold DecoderLayer_new, layer_norm. cbv zeta.
  unfold py_floordiv. rewrite decide_False by done.
  erewrite mbind_inr by reflexivity.
  do 8 (erewrite mbind_inr by apply new_eq).
  rewrite new_eq. cbn [events next_id]. unfold layer_at, layer_events. cbv zeta.
  rewrite <- !app_assoc. cbn [imap layer_classes app compose].
  rewrite !Nat.add_succ_r, !Nat.add_0_r. reflexivity.
Qed.

(** The loop of the list comprehension. *)
Lemma build_layers_spec (config : LlamaConfig) rotary heads device
    {X} (xs : list X) (acc : list (obj DecoderLayerArgs)) (w : world) :
  n_query_heads (attention (layer config)) ≠ 0 →
  ∃ w',
    for_in xs (λ acc _, l ← DecoderLayer_new config rotary heads device;
                        mret (acc ++ [l])) acc w
    = (inr (acc ++ ((λ k, layer_at config rotary heads device (next_id w + 9 * k))
                      <$> seq 0 (length xs))), w')
    ∧ next_id w' = (next_id w + 9 * length xs)%nat.
Proof.
  intros Hq. revert acc w. induction xs as [|x xs IH]; intros acc w.
  - exists w. cbn. rewrite !app_nil_r. split; [done|lia].
  - cbn [for_in]. erewrite bind_inr; last first.
    { erewrite mbind_inr by (by apply DecoderLayer_new_spec). reflexivity. }
    edestruct IH as (w' & -> & Hnext). exists w'.
    cbn [next_id length seq fmap list_fmap] in *.
    split; [|lia]. rewrite <- !app_assoc. cbn [app].
    rewrite Nat.mul_0_r, Nat.add_0_r. rewrite <- fmap_S_seq, <- list_fmap_compose.
    do 4 f_equal.
    apply list_fmap_ext. intros i k _. cbn. f_equal. lia.
Qed.

(** The constructor on a configuration with rotary parameters. *)
Lemma llama_init_spec (config : LlamaConfig) (device : option Device) (w : world)
    (rotary : RotaryEmbeddingConfig) :
  let n := Z.to_nat (n_hidden_layers (layer config)) in
  let heads := key_value_broadcast (n_query_heads (attention (layer config)))
                 (n_key_value_heads (attention (layer config))) in
  rotary_embeddings (attention (layer config)) = Some rotary →
  n_query_heads (attention (layer config)) ≠ 0 ∨ n_hidden_layers (layer config) ≤ 0 →
  ∃ w',
    LlamaDecoder_init config device w
    = (inr {| self_embeddings :=
                Obj (next_id w + 3)
                  {| te_dropouts :=
                       Obj (next_id w + 1)
                         (Obj (next_id w) (emb_dropout_prob (embedding config)));
                     te_embedding_width := embedding_width (embedding config);
                     te_hidden_width := hidden_width (feedforward (layer config));
                     te_layer_norms := Obj (next_id w + 2) tt;
                     te_n_pieces := n_pieces (embedding config);
                     te_n_positions := None;
                     te_n_types := None;
                     te_device := device |};
              self_layers :=
                (λ k, layer_at config rotary heads device (next_id w + 4 + 9 * k))
                  <$> seq 0 n;
              self_output_layer_norm :=
                Obj (next_id w + 4 + 9 * n)
                  {| rn_width := hidden_width (feedforward (layer config));
                     rn_eps := layer_norm_eps (layer config);
                     rn_device := device |} |},
       w')
    ∧ next_id w' = (next_id w + 5 + 9 * n)%nat.
Proof.
  intros n heads Hrot Hq. unfold LlamaDecoder_init.
  do 4 (erewrite mbind_inr by apply new_eq).
  cbv zeta. rewrite Hrot. fold heads. cbn [next_id events].
  set (w0 := World _ _).
  assert (Hloop : ∃ w',
    for_in (range (n_hidden_layers (layer config)))
      (λ acc _, l ← DecoderLayer_new config rotary heads device; mret (acc ++ [l]))
      [] w0
    = (inr ((λ k, layer_at config rotary heads device (next_id w0 + 9 * k))
              <$> seq 0 n), w')
    ∧ next_id w' = (next_id w0 + 9 * n)%nat).
  { destruct Hq as [Hq|Hn].
    - destruct (build_layers_spec config rotary heads device
                  (range (n_hidden_layers (layer config))) [] w0 Hq) as (w' & Hrun & Hnext).
      rewrite length_range in Hrun, Hnext. by exists w'.
    - subst n. unfold range. replace (Z.to_nat (n_hidden_layers (layer config)))
        with 0%nat by lia.
      exists w0. cbn. split; [done|lia]. }
  destruct Hloop as (w' & Hrun & Hnext).
  erewrite mbind_inr by exact Hrun.
  erewrite mbind_inr by apply new_eq.
  subst w0. cbn [next_id] in *. eexists. split.
  - unfold mret, Py_ret, ret. rewrite Hnext.
    replace (next_id w + 3)%nat with (S (S (S (next_id w)))) by lia.
    replace (next_id w + 2)%nat with (S (S (next_id w))) by lia.
    replace (next_id w + 1)%nat with (S (next_id w)) by lia.
    replace (next_id w + 4 + 9 * n)%nat with (S (S (S (S (next_id w)))) + 9 * n)%nat
      by lia.
    assert (Hlayers :
      (λ k, layer_at config rotary heads device (next_id w + 4 + 9 * k)) <$> seq 0 n
      = (λ k, layer_at config rotary heads device (S (S (S (S (next_id w)))) + 9 * k))
          <$> seq 0 n).
    { apply list_fmap_ext. intros i k _. f_equal. lia. }
    rewrite Hlayers. reflexivity.
  - cbn [next_id]. lia.
Qed.






End with_opaque.






End LlamaExtra.

(** ** Byte-level BPE piece encoder: errors, batches and serialization *)

Module BBPEExtra.
Import BBPE BBPEAttrs PythonFacts BBPEFacts.

Lemma append_nil_r (s : string) : s +:+ "" = s.
Proof.
  induction s as [|a s IH]; [done|].
  change (String a (s +:+ "") = String a s). by rewrite IH.
Qed.

Lemma append_assoc (s1 s2 s3 : string) : (s1 +:+ s2) +:+ s3 = s1 +:+ s2 +:+ s3.
Proof.
  induction s1 as [|a s1 IH]; [done|].
  change (String a ((s1 +:+ s2) +:+ s3) = String a (s1 +:+ s2 +:+ s3)).
  by rewrite IH.
Qed.

Lemma rows_lengths (xss : list (list Z)) (rest : list Z) (lens : list Z) :
  rows (((λ ids, Z.of_nat (length ids)) <$> xss) ++ lens) (concat xss ++ rest)
  = xss ++ rows lens rest.
Proof.
  induction xss as [|xs xss IH]; [done|].
  cbn [fmap list_fmap concat app rows]. rewrite Nat2Z.id, <- app_assoc.
  rewrite take_app_length, drop_app_length. f_equal. exact IH.
Qed.

Section with_cutlery.
Context `{Cutlery}.

(** X11 (lines 44-52).  The three pieces are looked up in the order BOS,
    EOS, UNK, and the error names the first one that is missing. *)
Theorem bbpe_forward_names_first_missing_piece
    (model : Model) (X : list Doc) (is_train : bool) (log : list string) :
  let bbp := byte_bpe_processor model in
  let fails msg :=
    byte_bpe_encoder_forward model X is_train log = (inl (ValueError msg), log) in
  (piece_id bbp (bos_piece model) = None →
     fails "Vocabulary does not have BOS piece")
  ∧ (is_Some (piece_id bbp (bos_piece model)) →
     piece_id bbp (eos_piece model) = None →
     fails "Vocabulary does not have EOS piece")
  ∧ (is_Some (piece_id bbp (bos_piece model)) →
     is_Some (piece_id bbp (eos_piece model)) →
     piece_id bbp (unk_piece model) = None →
     fails "Vocabulary does not have UNK piece").
Proof.
  intros bbp fails. subst fails. unfold byte_bpe_encoder_forward. cbv zeta. fold bbp.
  repeat split.
  - by intros ->.
  - by intros [? ->] ->.
  - by intros [? ->] [? ->] ->.
Qed.

(** X12 (lines 54-82).  Documents are encoded one by one and independently:
    the forward pass over [X1 ++ X2] returns what it returns over [X1]
    followed by what it returns over [X2], and hands the processor the
    texts of [X1] and then those of [X2]. *)
Theorem bbpe_forward_app
    (model : Model) (X1 X2 : list Doc) (is_train : bool) (log : list string)
    (bos_id eos_id unk_id : Z) :
  let bbp := byte_bpe_processor model in
  piece_id bbp (bos_piece model) = Some bos_id →
  piece_id bbp (eos_piece model) = Some eos_id →
  piece_id bbp (unk_piece model) = Some unk_id →
  ∃ out1 out2 backprop log1 log2,
    byte_bpe_encoder_forward model X1 is_train log = (inr (out1, backprop), log1)
    ∧ byte_bpe_encoder_forward model X2 is_train log1 = (inr (out2, backprop), log2)
    ∧ byte_bpe_encoder_forward model (X1 ++ X2) is_train log
      = (inr (out1 ++ out2, backprop), log2).
Proof.
  intros bbp Hbos Heos Hunk.
  eexists _, _, _, _, _.
  rewrite !(forward_spec model _ is_train _ bos_id eos_id unk_id) by done.
  split; [reflexivity|]. split; [reflexivity|].
  by rewrite !fmap_app, concat_app, app_assoc.
Qed.

(** X13 (lines 39-52).  The UNK piece is only tested for: with another UNK
    piece that has an id, and with the other training flag, the forward
    pass returns the same arrays and hands the processor the same texts. *)
Theorem bbpe_forward_ignores_unk_and_is_train
    (model : Model) (X : list Doc) (is_train is_train' : bool) (log : list string)
    (unk_piece' : string) (bos_id eos_id unk_id unk_id' : Z) :
  let bbp := byte_bpe_processor model in
  piece_id bbp (bos_piece model) = Some bos_id →
  piece_id bbp (eos_piece model) = Some eos_id →
  piece_id bbp (unk_piece model) = Some unk_id →
  piece_id bbp unk_piece' = Some unk_id' →
  byte_bpe_encoder_forward (with_unk_piece model unk_piece') X is_train' log
  = byte_bpe_encoder_forward model X is_train log.
Proof.
  intros bbp Hbos Heos Hunk Hunk'.
  rewrite (forward_spec model X is_train log bos_id eos_id unk_id) by done.
  by rewrite (forward_spec (with_unk_piece model unk_piece') X is_train' log
                bos_id eos_id unk_id') by done.
Qed.

(** The texts of a run of tokens, joined, end where the last token's text
    ends. *)
Lemma join_texts_from (prev : option Token) (tokens : list Token) :
  join (texts_from prev tokens)
  +:+ default (default "" (whitespace_ <$> prev)) (whitespace_ <$> last tokens)
  = default "" (whitespace_ <$> prev) +:+ join (text_with_ws <$> tokens).
Proof.
  revert prev. induction tokens as [|token rest IH]; intros prev.
  - cbn. by rewrite append_nil_r.
  - cbn [texts_from join foldr fmap list_fmap].
    fold (join (texts_from (Some token) rest)).
    change (foldr String.append "" (list_fmap _ _ text_with_ws rest))
      with (join (text_with_ws <$> rest)).
    rewrite append_assoc.
    assert (Hlast : default (default "" (whitespace_ <$> prev))
                      (whitespace_ <$> last (token :: rest))
                    = default (whitespace_ token) (whitespace_ <$> last rest)).
    { rewrite last_cons. by destruct (last rest). }
    rewrite Hlast. specialize (IH (Some token)). cbn [fmap option_fmap option_map default from_option id] in IH.
    rewrite IH. unfold text_with_ws. destruct prev as [p|]; cbn.
    + by rewrite !append_assoc.
    + by rewrite !append_assoc.
Qed.

(** X14 (lines 62-69).  Joined, the texts handed to the processor for a
    document are the document's text, every token with its trailing
    whitespace, except that the trailing whitespace of the last token is
    left out: no character between tokens is lost or encoded twice. *)
Theorem bbpe_forward_texts_cover_document
    (model : Model) (doc : Doc) (is_train : bool) (bos_id eos_id unk_id : Z) :
  let bbp := byte_bpe_processor model in
  piece_id bbp (bos_piece model) = Some bos_id →
  piece_id bbp (eos_piece model) = Some eos_id →
  piece_id bbp (unk_piece model) = Some unk_id →
  ∃ out texts,
    byte_bpe_encoder_forward model [doc] is_train [] = (inr out, texts)
    ∧ join texts +:+ default "" (whitespace_ <$> last doc)
      = join (text_with_ws <$> doc).
Proof.
  intros bbp Hbos Heos Hunk. eexists _, _.
  split; [by apply (forward_spec model [doc] is_train [] bos_id eos_id unk_id)|].
  cbn [fmap list_fmap concat app]. rewrite app_nil_r.
  apply (join_texts_from None doc).
Qed.


End with_cutlery.

Section with_srsly.
Context `{Srsly}.

(** X16 (lines 26-36 and 44-46).  The model [build_byte_bpe_encoder] returns
    has the pieces "<unk>", "<s>" and "</s>" and a processor without
    vocabulary; as long as that processor has no id for "<s>", the forward
    pass raises the BOS error on every input, and encodes nothing. *)
Theorem bbpe_built_encoder_raises_until_loaded
    (X : list Doc) (is_train : bool) (log : list string) :
  piece_id (ByteBPEProcessor_new empty_dict empty_list) "<s>" = None →
  byte_bpe_encoder_forward build_byte_bpe_encoder X is_train log
  = (inl (ValueError "Vocabulary does not have BOS piece"), log).
Proof.
  intros Hnone. unfold byte_bpe_encoder_forward, build_byte_bpe_encoder. cbv zeta.
  cbn [byte_bpe_processor bos_piece]. by rewrite Hnone.
Qed.

(** X17 (lines 12-23).  Deserializing what [serialize_byte_bpe_processor]
    returns builds a processor from the vocabulary and the merges of the
    serialized one, in this order, as [msgpack] gives them back: when
    [msgpack_loads] undoes [msgpack_dumps] up to a conversion [norm] of the
    values (tuples come back as lists), the result is
    [ByteBPEProcessor(norm(value.vocab), norm(value.merges))]. *)
Theorem bbpe_deserialize_serialize
    (value : ByteBPEProcessor) (name name' : string) (model model' : Model)
    (norm : PyObj → PyObj) :
  (∀ data, msgpack_loads (msgpack_dumps data) = Some (norm <$> data)) →
  deserialize_byte_bpe_processor
    (serialize_byte_bpe_processor value name model) name' model'
  = inr (ByteBPEProcessor_new (norm (vocab value)) (norm (merges value))).
Proof.
  intros Hround. unfold deserialize_byte_bpe_processor, serialize_byte_bpe_processor.
  cbv zeta. rewrite Hround, !lookup_fmap.
  rewrite lookup_insert_eq. cbn [fmap option_fmap option_map].
  rewrite lookup_insert_ne by done. rewrite lookup_insert_eq. reflexivity.
Qed.


End with_srsly.

Lemma bbpe_forward_app_witness :
  ∃ out backprop log',
    @byte_bpe_encoder_forward toy_cutlery (toy_model toy_vocab)
      ([hello_world] ++ [[]]) false [] = (inr (out, backprop), log')
    ∧ length out = 2%nat.
Proof.
  destruct (@bbpe_forward_app toy_cutlery (toy_model toy_vocab)
              [hello_world] [[]] false [] 0 2 3 eq_refl eq_refl eq_refl)
    as (out1 & out2 & backprop & log1 & log2 & Hrun1 & Hrun2 & Hrun).
  exists (out1 ++ out2), backprop, log2. split; [exact Hrun|].
  injection Hrun1 as <- _ _. injection Hrun2 as <- _ _. reflexivity.
Defined.

Lemma bbpe_forward_ignores_unk_and_is_train_witness :
  @byte_bpe_encoder_forward toy_cutlery
    (with_unk_piece (toy_model toy_vocab) "</s>") [hello_world] true []
  = @byte_bpe_encoder_forward toy_cutlery (toy_model toy_vocab) [hello_world] false [].
Proof.
  exact (@bbpe_forward_ignores_unk_and_is_train toy_cutlery (toy_model toy_vocab)
           [hello_world] false true [] "</s>" 0 2 3 2
           eq_refl eq_refl eq_refl eq_refl).
Defined.

Lemma bbpe_forward_texts_cover_document_witness :
  ∃ out texts,
    @byte_bpe_encoder_forward toy_cutlery (toy_model toy_vocab) [hello_world] false []
    = (inr out, texts)
    ∧ join texts +:+ "" = "Hello world!".
Proof.
  exact (@bbpe_forward_texts_cover_document toy_cutlery (toy_model toy_vocab)
           hello_world false 0 2 3 eq_refl eq_refl eq_refl).
Defined.


Lemma bbpe_built_encoder_raises_until_loaded_witness :
  @byte_bpe_encoder_forward toy_cutlery (@build_byte_bpe_encoder _ toy_srsly)
    [hello_world] false []
  = (inl (ValueError "Vocabulary does not have BOS piece"), []).
Proof.
  exact (@bbpe_built_encoder_raises_until_loaded toy_cutlery toy_srsly
           [hello_world] false [] eq_refl).
Defined.

Lemma bbpe_deserialize_serialize_witness :
  @deserialize_byte_bpe_processor _ toy_srsly
    (@serialize_byte_bpe_processor _ toy_srsly toy_vocab "byte_bpe_processor"
       (toy_model []))
    "byte_bpe_processor" (toy_model [])
  = inr toy_vocab.
Proof.
  refine (@bbpe_deserialize_serialize toy_cutlery toy_srsly toy_vocab
            "byte_bpe_processor" "byte_bpe_processor" (toy_model []) (toy_model [])
            id _).
  intros data. cbn. by rewrite map_fmap_id.
Defined.

End BBPEExtra.
